(** * PTDetector.generate_detections_one_image (detection/pytorch_detector.py)

    A shallow embedding of the per-image detection call of the MegaDetector
    PyTorch wrapper, and the properties its specification states about it.

    Floating-point numbers are modelled by the rationals [Q]; the Python
    dictionary that is returned is a [gmap string value]; the instance
    attribute [printed_image_size_warning], the locals [result],
    [detections], [max_conf] and the console are threaded through an
    explicit frame; exceptions are values of [exn] carried in a sum.
    The collaborators that are imported from numpy, torch, YOLOv5 and the
    Python standard library are the fields of a [runtime] record. *)

From stdpp Require Import gmap strings list.
From Stdlib Require Import ZArith QArith Qround Qpower Qabs Lia Lqa DecimalString.

Open Scope Z_scope.

(** ** Python values and built-ins *)

Inductive exn : Type :=
| AssertionError
| KeyError (cls : Z)
| TypeError
| IndexError
| RuntimeError
| LibraryError (origin : string).

Inductive torch_device : Type := cpu | cuda0 | mps.

(** The [image_size] argument: an int, a sequence (tuple or list), or an
    object that is neither, such as a float. *)
Inductive size_arg : Type :=
| SizeInt (n : Z)
| SizeSeq (dims : list Z)
| SizeScalar (x : Q).

(** Objects that reach [traceback.print_exc] as its [limit] argument. *)
Inductive pyobj : Type :=
| PyNone
| PyInt (n : Z)
| PyExc (e : exn).

(** [max(a, b)]: the first argument unless the second is greater. *)
Definition py_max (a b : Q) : Q := if Qlt_le_dec a b then b else a.

(** [int(x)] on a float: truncation toward zero. *)
Definition py_int (x : Q) : Z := Z.quot (Qnum x) (Z.pos (Qden x)).

(** [str(n)] on an int. *)
Definition py_str (n : Z) : string := NilZero.string_of_int (Z.to_int n).

(** [Tensor.round()]: to the nearest integer, halves to the even one. *)
Definition torch_round (x : Q) : Q :=
  let f := Qfloor x in
  let r := (x - inject_Z f)%Q in
  if Qlt_le_dec r (1 # 2) then inject_Z f
  else if Qlt_le_dec (1 # 2) r then inject_Z (f + 1)
  else if Z.even f then inject_Z f else inject_Z (f + 1).

(** ** Data *)

Record ndarray : Type := { shape : list Z; buffer : N }.
Record tensor : Type := { tshape : list Z; storage : N }.

(** A corner-format box [(x1, y1, x2, y2)]. *)
Definition box : Type := (Q * Q * Q * Q)%type.

(** One row of a detection tensor: [*xyxy, conf, cls]. *)
Record row : Type := { xyxy : box; row_conf : Q; row_cls : Q }.

Definition prediction : Type := list row.

(** A detection object of the output format. *)
Record detection : Type := { category : string; conf : Q; bbox : list Q }.

Inductive value : Type :=
| VStr (s : string)
| VFloat (x : Q)
| VList (ds : list detection).

(** What is written to the console, and which collaborator was entered. *)
Inductive event : Type :=
| Print_size_warning (image_size : size_arg)
| Print_failure (image_id : string) (e : exn)
| Call (fn : string).

(** ** Collaborators *)

Record runtime : Type := {
  np_asarray : N -> exn + ndarray;
  letterbox : ndarray -> size_arg -> Z -> bool -> exn + ndarray;
  (* lines 121-129: transpose, ascontiguousarray, from_numpy, to(device),
     float, division by 255, unsqueeze *)
  to_batch : ndarray -> torch_device -> exn + tensor;
  non_max_suppression : prediction -> Q -> exn + list (list row);
  scale_coords : list Z -> list box -> list Z -> exn + list box;
  traceback_print_exc : pyobj -> exn + unit
}.

(** CPython 3, traceback.py: [print_exc(limit=None, file=None, chain=True)]
    hands [limit] to [StackSummary.extract], which evaluates [limit >= 0]
    when [limit] is not [None]; an exception object does not compare with
    an int, and the comparison raises [TypeError]. *)
Definition cpython_print_exc (limit : pyobj) : exn + unit :=
  match limit with
  | PyNone => inr tt
  | PyInt _ => inr tt
  | PyExc _ => inl TypeError
  end.

(** ** The detector object *)

Record PTDetector : Type := {
  device : torch_device;
  model : tensor -> exn + prediction;
  printed_image_size_warning : bool;
  use_model_native_classes : bool
}.

Definition IMAGE_SIZE : Z := 1280.
Definition STRIDE : Z := 64.

(** [PTDetector.__init__], lines 59-60; the device and the loaded model are
    chosen by the caller. *)
Definition init (d : torch_device) (m : tensor -> exn + prediction)
    (use_native : bool) : PTDetector :=
  {| device := d; model := m;
     printed_image_size_warning := false;
     use_model_native_classes := use_native |}.

(** ** Frames and the state-and-exception monad *)

Record frame : Type := {
  warned : bool;                  (* self.printed_image_size_warning *)
  result : gmap string value;     (* the local [result] *)
  detections : list detection;    (* the local [detections] *)
  max_conf : Q;                   (* the local [max_conf] *)
  trace : list event              (* oldest event first *)
}.

Definition M (A : Type) : Type := frame -> (exn + A) * frame.

Definition ret {A} (a : A) : M A := fun s => (inr a, s).
Definition bind {A B} (m : M A) (k : A -> M B) : M B :=
  fun s => match m s with
           | (inl e, s') => (inl e, s')
           | (inr a, s') => k a s'
           end.

Notation "x <- m ;; k" := (bind m (fun x => k))
  (at level 100, m at next level, right associativity).
Notation "m ;; k" := (bind m (fun _ => k))
  (at level 100, right associativity).

Definition lift {A} (r : exn + A) : M A := fun s => (r, s).

Definition log (ev : event) : M unit :=
  fun s => (inr tt,
            {| warned := warned s; result := result s;
               detections := detections s; max_conf := max_conf s;
               trace := trace s ++ [ev] |}).

(** Entering a collaborator: the call is recorded, then it returns or raises. *)
Definition call {A} (fn : string) (r : exn + A) : M A :=
  log (Call fn) ;; lift r.

Definition get_warned : M bool := fun s => (inr (warned s), s).
Definition set_warned (b : bool) : M unit :=
  fun s => (inr tt,
            {| warned := b; result := result s;
               detections := detections s; max_conf := max_conf s;
               trace := trace s |}).

Definition set_item (key : string) (v : value) : M unit :=
  fun s => (inr tt,
            {| warned := warned s; result := <[key := v]> (result s);
               detections := detections s; max_conf := max_conf s;
               trace := trace s |}).

Definition append (d : detection) : M unit :=
  fun s => (inr tt,
            {| warned := warned s; result := result s;
               detections := detections s ++ [d]; max_conf := max_conf s;
               trace := trace s |}).

Definition update_max_conf (c : Q) : M unit :=
  fun s => (inr tt,
            {| warned := warned s; result := result s;
               detections := detections s;
               max_conf := py_max (max_conf s) c;
               trace := trace s |}).

Definition get_locals : M (list detection * Q) :=
  fun s => (inr (detections s, max_conf s), s).
Definition get_result : M (gmap string value) :=
  fun s => (inr (result s), s).

(** [try: body except Exception as e: handler e]; the values of [exn]
    stand for instances of [Exception]. *)
Definition try_except (body : M unit) (handler : exn -> M unit) : M unit :=
  fun s => match body s with
           | (inl e, s') => handler e s'
           | (inr tt, s') => (inr tt, s')
           end.

Fixpoint for_each {A} (l : list A) (body : A -> M unit) : M unit :=
  match l with
  | [] => ret tt
  | x :: l' => body x ;; for_each l' body
  end.

(** ** Helpers of ct_utils and of the YOLOv5 utilities *)

(** The exponent [e] with [10^e <= x < 10^(e+1)], for [0 < x]. *)
Fixpoint log10_up (fuel : nat) (x : Q) (k : Z) : Z :=
  match fuel with
  | O => k
  | S f => if Qle_bool (10 ^ (k + 1)) x then log10_up f x (k + 1) else k
  end.

Fixpoint log10_down (fuel : nat) (x : Q) (k : Z) : Z :=
  match fuel with
  | O => k - 1
  | S f => if Qle_bool (10 ^ (k - 1)) x then k - 1 else log10_down f x (k - 1)
  end.

Definition floor_log10 (x : Q) : Z :=
  if Qle_bool 1 x
  then log10_up (S (Z.to_nat (Z.log2 (Qnum x)))) x 0
  else log10_down (S (Z.to_nat (Z.log2 (Z.pos (Qden x))))) x 0.

(** Modelled from the spec: [ct_utils.truncate_float] is not among the
    sources.  The specification has numbers "truncated to a fixed number of
    significant decimal digits", and "truncate (always round toward zero /
    toward the floor of the digit boundary), do not round-to-nearest": the
    decimal point is moved behind the last significant digit that is kept,
    the fraction is dropped toward zero, and the point is moved back. *)
Definition truncate_float (x : Q) (precision : Z) : Q :=
  if Qeq_bool x 0 then 0%Q
  else
    let factor := (10 ^ (precision - 1 - floor_log10 (Qabs x)))%Q in
    (inject_Z (py_int (x * factor)) / factor)%Q.

(** Modelled from the spec: [ct_utils.truncate_float_array] is not among
    the sources; it truncates every number of a list with the precision it
    is given. *)
Definition truncate_float_array (xs : list Q) (precision : Z) : list Q :=
  map (fun x => truncate_float x precision) xs.

(** Modelled from the spec: YOLOv5's [xyxy2xywh] converts pixel
    [(x1, y1, x2, y2)] to [(center-x, center-y, width, height)]. *)
Definition xyxy2xywh (b : box) : box :=
  let '(x1, y1, x2, y2) := b in
  ((x1 + x2) / 2, (y1 + y2) / 2, x2 - x1, y2 - y1)%Q.

(** Modelled from the spec: [ct_utils.convert_yolo_to_xywh] is not among
    the sources; it converts [(center-x, center-y, width, height)] to
    [(x_min, y_min, width, height)]. *)
Definition convert_yolo_to_xywh (yolo_box : box) : list Q :=
  let '(x_center, y_center, width_box, height_box) := yolo_box in
  [x_center - width_box / 2; y_center - height_box / 2;
   width_box; height_box]%Q.

(** [torch.tensor(img_original.shape)[[1, 0, 1, 0]]], the gain [whwh]. *)
Definition normalization_gain (shp : list Z) : exn + box :=
  match shp !! 1%nat, shp !! 0%nat with
  | Some w, Some h => inr (inject_Z w, inject_Z h, inject_Z w, inject_Z h)
  | _, _ => inl IndexError
  end.

(** Elementwise division of a box by the gain. *)
Definition div_gain (b gn : box) : box :=
  let '(a1, a2, a3, a4) := b in
  let '(g1, g2, g3, g4) := gn in
  (a1 / g1, a2 / g2, a3 / g3, a4 / g4)%Q.

Definition round_box (b : box) : box :=
  let '(a1, a2, a3, a4) := b in
  (torch_round a1, torch_round a2, torch_round a3, torch_round a4).

Definition with_box (r : row) (b : box) : row :=
  {| xyxy := b; row_conf := row_conf r; row_cls := row_cls r |}.

(** [det[:, :4] = boxes]: the four box columns are overwritten; the shapes
    must agree. *)
Definition assign_boxes (det : list row) (boxes : list box)
    : exn + list row :=
  if (length boxes =? length det)%nat
  then inr (zip_with with_box det boxes)
  else inl RuntimeError.

(** Lines 163-170: the category id of a class index. *)
Definition class_id (use_native : bool) (cls : Q) : exn + Z :=
  if negb use_native then
    let c := py_int cls + 1 in
    if negb (existsb (Z.eqb c) [1; 2; 3]) then inl (KeyError c) else inr c
  else inr (py_int cls).

(** Line 104: [assert isinstance(image_size,int) or (len(image_size)==2)]. *)
Definition check_image_size (image_size : size_arg) : exn + unit :=
  match image_size with
  | SizeInt _ => inr tt
  | SizeSeq dims =>
      if (length dims =? 2)%nat then inr tt else inl AssertionError
  | SizeScalar _ => inl TypeError
  end.

(** ** generate_detections_one_image *)

Section Detector.

(** Constants of [detection.run_detector], which is not among the
    sources. *)
Variables CONF_DIGITS COORD_DIGITS : Z.
Variable FAILURE_INFER : string.

Variable rt : runtime.
Variable self : PTDetector.

(** Lines 102-114. *)
Definition choose_target_size (image_size : option size_arg) : M size_arg :=
  match image_size with
  | Some sz =>
      lift (check_image_size sz) ;;
      w <- get_warned ;;
      (if negb w
       then log (Print_size_warning sz) ;; set_warned true
       else ret tt) ;;
      ret sz
  | None =>
      set_warned false ;;
      ret (SizeInt IMAGE_SIZE)
  end.

(** Lines 154-177, the body of the loop over the rows of a batch. *)
Definition format_row (gn : box) (r : row) : M unit :=
  let xywh := div_gain (xyxy2xywh (xyxy r)) gn in
  let api_box := convert_yolo_to_xywh xywh in
  let conf := truncate_float (row_conf r) CONF_DIGITS in
  cls <- lift (class_id (use_model_native_classes self) (row_cls r)) ;;
  append {| category := py_str cls;
            conf := conf;
            bbox := truncate_float_array api_box COORD_DIGITS |} ;;
  update_max_conf conf.

(** Lines 147-177, the body of the loop over the batches. *)
Definition format_batch (img : tensor) (img_original : ndarray)
    (gn : box) (det : list row) : M unit :=
  if (0 <? length det)%nat then
    scaled <- call "scale_coords"
                (scale_coords rt (drop 2 (tshape img)) (map xyxy det)
                   (shape img_original)) ;;
    det' <- lift (assign_boxes det (map round_box scaled)) ;;
    for_each (rev det') (format_row gn)
  else ret tt.

(** Lines 96-143: conversion, target size, padded resize, forward pass,
    non-maximum suppression, normalization gain. *)
Definition preprocess_and_infer (img_original : N)
    (detection_threshold : Q) (image_size : option size_arg)
    : M (ndarray * tensor * list (list row) * box) :=
  img_original <- call "np.asarray" (np_asarray rt img_original) ;;
  target_size <- choose_target_size image_size ;;
  img <- call "letterbox"
           (letterbox rt img_original target_size STRIDE true) ;;
  img <- call "to_batch" (to_batch rt img (device self)) ;;
  pred <- call "model" (model self img) ;;
  pred <- match device self with
          | mps => call "non_max_suppression"
                     (non_max_suppression rt pred detection_threshold)
          | _ => call "non_max_suppression"
                   (non_max_suppression rt pred detection_threshold)
          end ;;
  gn <- lift (normalization_gain (shape img_original)) ;;
  ret (img_original, img, pred, gn).

(** Lines 96-183, the body of [try]. *)
Definition try_block (img_original : N) (detection_threshold : Q)
    (image_size : option size_arg) : M unit :=
  staged <-
    preprocess_and_infer img_original detection_threshold image_size ;;
  let '(img_original, img, pred, gn) := staged in
  for_each pred (format_batch img img_original gn).

(** Lines 187-191, the handler. *)
Definition handler (image_id : string) (e : exn) : M unit :=
  set_item "failure" (VStr FAILURE_INFER) ;;
  log (Print_failure image_id e) ;;
  call "traceback.print_exc" (traceback_print_exc rt (PyExc e)).

Definition generate_detections_one_image_body (img_original : N)
    (image_id : string) (detection_threshold : Q)
    (image_size : option size_arg) : M (gmap string value) :=
  try_except (try_block img_original detection_threshold image_size)
    (handler image_id) ;;
  l <- get_locals ;;
  set_item "max_detection_conf" (VFloat (snd l)) ;;
  set_item "detections" (VList (fst l)) ;;
  get_result.

(** The frame on entry, lines 88-92. *)
Definition entry (image_id : string) : frame :=
  {| warned := printed_image_size_warning self;
     result := {["file" := VStr image_id]};
     detections := [];
     max_conf := 0%Q;
     trace := [] |}.

(** The call: what the caller gets (a record or an exception), the
    detector afterwards, and what happened on the way. *)
Definition generate_detections_one_image (img_original : N)
    (image_id : string) (detection_threshold : Q)
    (image_size : option size_arg)
    : (exn + gmap string value) * PTDetector * list event :=
  let '(r, s) :=
    generate_detections_one_image_body img_original image_id
      detection_threshold image_size (entry image_id) in
  (r,
   {| device := device self; model := model self;
      printed_image_size_warning := warned s;
      use_model_native_classes := use_model_native_classes self |},
   trace s).

End Detector.

(** ** Notions used to state the properties *)

(** What the caller receives. *)
Definition outcome {A B C : Type} (x : A * B * C) : A := fst (fst x).
Definition detector_after {A B C : Type} (x : A * B * C) : B := snd (fst x).
Definition events {A B C : Type} (x : A * B * C) : C := snd x.

(** One detection appended and [max_conf] brought up to date (lines 172-177). *)
Definition push (d : detection) (s : frame) : frame :=
  {| warned := warned s; result := result s;
     detections := detections s ++ [d];
     max_conf := py_max (max_conf s) (conf d);
     trace := trace s |}.

Definition pushes (ds : list detection) (s : frame) : frame :=
  fold_left (fun s d => push d s) ds s.

(** The detection a row is turned into, when its class is accepted. *)
Definition format_pure (CONF_DIGITS COORD_DIGITS : Z) (use_native : bool)
    (gn : box) (r : row) : exn + detection :=
  match class_id use_native (row_cls r) with
  | inl e => inl e
  | inr c =>
      inr {| category := py_str c;
             conf := truncate_float (row_conf r) CONF_DIGITS;
             bbox := truncate_float_array
                       (convert_yolo_to_xywh
                          (div_gain (xyxy2xywh (xyxy r)) gn))
                       COORD_DIGITS |}
  end.

(** The running maximum of the confidences of a list, from [0.0]. *)
Definition running_max (cs : list Q) (start : Q) : Q :=
  fold_left py_max cs start.

(** [m] is the greatest confidence of a non-empty list, [0.0] for the
    empty one. *)
Definition is_max_conf (m : Q) (ds : list detection) : Prop :=
  (ds = [] -> m = 0%Q) /\
  (ds <> [] ->
   Exists (fun d => (conf d == m)%Q) ds /\
   Forall (fun d => (conf d <= m)%Q) ds).

(** The target size that is handed to [letterbox]. *)
Definition target_of (image_size : option size_arg) : size_arg :=
  match image_size with
  | Some sz => sz
  | None => SizeInt IMAGE_SIZE
  end.

(** The stages up to the forward pass, as values: the array, the batch
    tensor and the candidates of the model.  The threshold plays no part. *)
Definition staged (rt : runtime) (self : PTDetector) (img_original : N)
    (image_size : option size_arg)
    : exn + (ndarray * tensor * prediction) :=
  match np_asarray rt img_original with
  | inl e => inl e
  | inr arr =>
    match match image_size with
          | Some sz => check_image_size sz
          | None => inr tt
          end with
    | inl e => inl e
    | inr _ =>
      match letterbox rt arr (target_of image_size) STRIDE true with
      | inl e => inl e
      | inr lb =>
        match to_batch rt lb (device self) with
        | inl e => inl e
        | inr t =>
          match model self t with
          | inl e => inl e
          | inr p => inr (arr, t, p)
          end
        end
      end
    end
  end.

(** The batches that non-maximum suppression lets through. *)
Definition survivors (rt : runtime) (self : PTDetector) (img_original : N)
    (detection_threshold : Q) (image_size : option size_arg)
    : exn + (ndarray * tensor * list (list row)) :=
  match staged rt self img_original image_size with
  | inl e => inl e
  | inr (arr, t, p) =>
      match non_max_suppression rt p detection_threshold with
      | inl e => inl e
      | inr batches => inr (arr, t, batches)
      end
  end.

(** A formatted row stems from a row that survived suppression, with the
    rounded box that [scale_coords] gave for it. *)
Definition came_from (rt : runtime) (t : tensor) (arr : ndarray)
    (batches : list (list row)) (r' : row) : Prop :=
  exists det r scaled b,
    In det batches /\ In r det /\
    scale_coords rt (drop 2 (tshape t)) (map xyxy det) (shape arr)
      = inr scaled /\
    In b scaled /\ r' = with_box r (round_box b).

Definition is_size_warning (ev : event) : bool :=
  match ev with Print_size_warning _ => true | _ => false end.

(** The size warnings among the events of a call. *)
Definition size_warnings (tr : list event) : list event :=
  List.filter is_size_warning tr.

(** A record without the failure marker. *)
Definition succeeded (r : gmap string value) : Prop := r !! "failure" = None.

(** At most [p] significant decimal digits: an integer below [10^p] in
    absolute value, times a power of ten. *)
Definition sig_digits (p : Z) (v : Q) : Prop :=
  exists m e : Z, Z.abs m < 10 ^ p /\ (v == inject_Z m * 10 ^ e)%Q.

(** [t] is [x] cut to [p] significant digits toward zero, for [0 <= x]:
    the greatest such number that does not exceed [x]. *)
Definition truncation_of (p : Z) (x t : Q) : Prop :=
  (0 <= t)%Q /\ (t <= x)%Q /\ sig_digits p t /\
  forall v, sig_digits p v -> (v <= x)%Q -> (v <= t)%Q.

Definition unit_interval (x : Q) : Prop := (0 <= x)%Q /\ (x <= 1)%Q.

(** A box inside an image of the given shape, corners in order. *)
Definition inside (shp : list Z) (b : box) : Prop :=
  let '(x1, y1, x2, y2) := b in
  exists h w, shp !! 0%nat = Some h /\ shp !! 1%nat = Some w /\
    0 < h /\ 0 < w /\
    (0 <= x1)%Q /\ (x1 <= x2)%Q /\ (x2 <= inject_Z w)%Q /\
    (0 <= y1)%Q /\ (y1 <= y2)%Q /\ (y2 <= inject_Z h)%Q.

(** Events appended to the console and call record of a frame. *)
Definition emit (evs : list event) (s : frame) : frame :=
  {| warned := warned s; result := result s;
     detections := detections s; max_conf := max_conf s;
     trace := trace s ++ evs |}.

(** [s'] is [s] after detections [ds] were pushed and events [evs] were
    recorded, the flag and the record being as they were. *)
Definition extends (s s' : frame) (ds : list detection) (evs : list event)
    : Prop :=
  warned s' = warned s /\
  result s' = result s /\
  detections s' = detections s ++ ds /\
  max_conf s' = running_max (map conf ds) (max_conf s) /\
  trace s' = trace s ++ evs.

Definition only_rescaling (evs : list event) : Prop :=
  Forall (fun ev => ev = Call "scale_coords") evs.

(** The warning state in the words of the specification: a non-default
    size warns once and sets the flag, the default size clears it. *)
Definition warning_step (flag : bool) (image_size : option size_arg)
    : bool * list event :=
  match image_size with
  | None => (false, [])
  | Some sz => if flag then (true, []) else (true, [Print_size_warning sz])
  end.

(** The record that is returned: the identifier, the failure marker when
    the handler ran, the greatest confidence and the detections. *)
Definition record (image_id : string) (failure : option string)
    (m : Q) (ds : list detection) : gmap string value :=
  <["detections" := VList ds]>
    (<["max_detection_conf" := VFloat m]>
       (match failure with
        | Some f => <["failure" := VStr f]> {["file" := VStr image_id]}
        | None => {["file" := VStr image_id]}
        end)).

Definition with_flag (self : PTDetector) (b : bool) : PTDetector :=
  {| device := device self; model := model self;
     printed_image_size_warning := b;
     use_model_native_classes := use_model_native_classes self |}.

(** ** A bench: stand-ins for the libraries, to run the call on *)

Definition clamp (hi x : Q) : Q :=
  if Qlt_le_dec x 0 then 0%Q else if Qlt_le_dec hi x then hi else x.

Definition clip_box (h w : Q) (b : box) : box :=
  let '(x1, y1, x2, y2) := b in
  (clamp w x1, clamp h y1, clamp w x2, clamp h y2).

(** An image handle [0] cannot be read; any other is 100 rows by 200
    columns.  Suppression keeps the candidates above the threshold; the
    boxes are already in the coordinates of the original image, and are
    clipped to it. *)
Definition bench_runtime (print_exc : pyobj -> exn + unit) : runtime :=
  {| np_asarray := fun h =>
       if (h =? 0)%N then inl (LibraryError "np.asarray")
       else inr {| shape := [100; 200; 3]; buffer := h |};
     letterbox := fun a _ _ _ =>
       inr {| shape := [640; 1280; 3]; buffer := buffer a |};
     to_batch := fun a _ =>
       inr {| tshape := 1 :: 3 :: take 2 (shape a); storage := buffer a |};
     non_max_suppression := fun p thr =>
       inr [List.filter (fun r => negb (Qle_bool (row_conf r) thr)) p];
     scale_coords := fun _ bs shp =>
       match shp with
       | h :: w :: _ =>
           if (0 <? h) && (0 <? w)
           then inr (map (clip_box (inject_Z h) (inject_Z w)) bs)
           else inl (LibraryError "scale_coords")
       | _ => inl (LibraryError "scale_coords")
       end;
     traceback_print_exc := print_exc |}.

(** A [print_exc] that prints and returns. *)
Definition quiet_print_exc (limit : pyobj) : exn + unit := inr tt.

Definition bench_detector (p : prediction) (use_native : bool) : PTDetector :=
  init cpu (fun _ => inr p) use_native.

Definition animal : row :=
  {| xyxy := (10, 20, 110, 70)%Q; row_conf := (9 # 10)%Q; row_cls := 0%Q |}.
Definition person : row :=
  {| xyxy := (50, 0, 200, 100)%Q; row_conf := (6199 # 10000)%Q;
     row_cls := 1%Q |}.
Definition stranger : row :=
  {| xyxy := (0, 0, 200, 100)%Q; row_conf := (3 # 10)%Q; row_cls := 5%Q |}.

(** The bench keeps three digits of a confidence and four of a coordinate. *)
Definition bench_call (print_exc : pyobj -> exn + unit)
    (self : PTDetector) (img_original : N) (detection_threshold : Q)
    (image_size : option size_arg) :=
  generate_detections_one_image 3 4 "Failure inference"
    (bench_runtime print_exc) self img_original "a.jpg"
    detection_threshold image_size.

(** An [image_size] that the assertion of line 104 accepts: an int, or a
    sequence of length two. *)
Definition valid_image_size (sz : size_arg) : Prop :=
  (exists n, sz = SizeInt n) \/ (exists h w, sz = SizeSeq [h; w]).

(** The detections of the bench rows, with and without class remapping. *)
Definition animal_detection (use_native : bool) : detection :=
  {| category := if use_native then "0" else "1";
     conf := 0.900%Q;
     bbox := [0.05000; 0.2000; 0.5000; 0.5000]%Q |}.
Definition person_detection (use_native : bool) : detection :=
  {| category := if use_native then "1" else "2";
     conf := 0.619%Q;
     bbox := [0.2500; 0; 0.7500; 1.000]%Q |}.

(** The category that the class policy gives a row (lines 163-173). *)
Definition category_of (use_native : bool) (r : row) : string :=
  py_str (if use_native then py_int (row_cls r) else py_int (row_cls r) + 1).

(** The remapped class id of a row is one of the known categories. *)
Definition recognized (r : row) : Prop :=
  In (py_int (row_cls r) + 1) [1; 2; 3].

(** What the call relies on from YOLOv5's [non_max_suppression] and from
    the model, for the threshold: only candidates whose confidence exceeds
    [conf_thres] are returned; confidences are at most one; a higher
    threshold lets no more rows through. *)
Definition nms_above_threshold (rt : runtime) : Prop :=
  forall p thr batches,
    non_max_suppression rt p thr = inr batches ->
    Forall (fun r => (thr < row_conf r)%Q) (concat batches).

Definition scores_at_most_one (rt : runtime) (self : PTDetector) : Prop :=
  forall x p thr batches,
    model self x = inr p ->
    non_max_suppression rt p thr = inr batches ->
    Forall (fun r => (row_conf r <= 1)%Q) (concat batches).

Definition nms_antitone (rt : runtime) : Prop :=
  forall p thr1 thr2 batches1 batches2,
    (thr1 <= thr2)%Q ->
    non_max_suppression rt p thr1 = inr batches1 ->
    non_max_suppression rt p thr2 = inr batches2 ->
    (length (concat batches2) <= length (concat batches1))%nat.
Definition stranger_detection : detection :=
  {| category := "5"; conf := 0.300%Q;
     bbox := [0; 0; 1.000; 1.000]%Q |}.

(** The array and the batch tensor of the bench, for image handle [1]. *)
Definition bench_array : ndarray := {| shape := [100; 200; 3]; buffer := 1 |}.
Definition bench_tensor : tensor :=
  {| tshape := [1; 3; 640; 1280]; storage := 1 |}.

(** A row with its class index replaced, and a runtime in which the class
    indices that suppression returns are replaced. *)
Definition with_cls (f : Q -> Q) (r : row) : row :=
  {| xyxy := xyxy r; row_conf := row_conf r; row_cls := f (row_cls r) |}.

Definition relabel (f : Q -> Q) (rt : runtime) : runtime :=
  {| np_asarray := np_asarray rt;
     letterbox := letterbox rt;
     to_batch := to_batch rt;
     non_max_suppression := fun p thr =>
       match non_max_suppression rt p thr with
       | inl e => inl e
       | inr batches => inr (map (map (with_cls f)) batches)
       end;
     scale_coords := scale_coords rt;
     traceback_print_exc := traceback_print_exc rt |}.

(** Detections, frames and records that differ at most in categories. *)
Definition same_but_category (d d' : detection) : Prop :=
  conf d = conf d' /\ bbox d = bbox d'.

Definition alike (s s' : frame) : Prop :=
  warned s = warned s' /\ result s = result s' /\
  max_conf s = max_conf s' /\ trace s = trace s' /\
  Forall2 same_but_category (detections s) (detections s').

Definition same_but_categories (r r' : gmap string value) : Prop :=
  r !! "file" = r' !! "file" /\
  r !! "failure" = r' !! "failure" /\
  r !! "max_detection_conf" = r' !! "max_detection_conf" /\
  exists ds ds',
    r !! "detections" = Some (VList ds) /\
    r' !! "detections" = Some (VList ds') /\
    Forall2 same_but_category ds ds'.

(** Corners in order. *)
Definition ordered (b : box) : Prop :=
  let '(x1, y1, x2, y2) := b in (x1 <= x2)%Q /\ (y1 <= y2)%Q.

(** What the call relies on for the numbers of a detection: the rows that
    suppression returns have a confidence in the unit interval and their
    corners in order, and [scale_coords] clips such boxes to the original
    image, which is not empty. *)
Definition candidates_well_formed (rt : runtime) (self : PTDetector) : Prop :=
  forall x p thr batches,
    model self x = inr p ->
    non_max_suppression rt p thr = inr batches ->
    Forall (fun r => unit_interval (row_conf r) /\ ordered (xyxy r))
      (concat batches).

Definition boxes_clipped (rt : runtime) : Prop :=
  forall shp1 boxes shp0 scaled,
    Forall ordered boxes ->
    scale_coords rt shp1 boxes shp0 = inr scaled ->
    Forall (inside shp0) scaled.

(** ** The rows of the loop *)

(** The rows of a batch as the loop of line 154 visits them: the boxes
    rescaled and rounded (line 152), the last row first; none for a batch
    without rows (line 149). *)
Definition visited (rt : runtime) (t : tensor) (arr : ndarray)
    (det : list row) : exn + list row :=
  if (0 <? length det)%nat then
    match scale_coords rt (drop 2 (tshape t)) (map xyxy det) (shape arr) with
    | inl e => inl e
    | inr scaled =>
        match assign_boxes det (map round_box scaled) with
        | inl e => inl e
        | inr det' => inr (rev det')
        end
    end
  else inr [].

(** The box of a row over the gain, as corner and size: the four numbers
    that line 175 cuts (lines 157-159). *)
Definition api_box (gn : box) (x : row) : list Q :=
  convert_yolo_to_xywh (div_gain (xyxy2xywh (xyxy x)) gn).

(** The numbers of detection [d] are those of row [x], cut toward zero: the
    confidence of the row to [CONF_DIGITS] significant digits, the numbers
    of its box to [COORD_DIGITS]; the numbers are in the unit interval
    before and after. *)
Definition cut_from (CONF_DIGITS COORD_DIGITS : Z) (gn : box) (x : row)
    (d : detection) : Prop :=
  unit_interval (row_conf x) /\ unit_interval (conf d) /\
  truncation_of CONF_DIGITS (row_conf x) (conf d) /\
  Forall2 (fun y v =>
             unit_interval y /\ unit_interval v /\
             truncation_of COORD_DIGITS y v)
    (api_box gn x) (bbox d).

(** The number of stages that a call enters: up to the first that raises,
    and a size that line 104 refuses stops the call after the conversion. *)
Definition stages_entered (rt : runtime) (self : PTDetector)
    (img_original : N) (image_size : option size_arg) : nat :=
  match np_asarray rt img_original with
  | inl _ => 1
  | inr arr =>
    match match image_size with
          | Some sz => check_image_size sz
          | None => inr tt
          end with
    | inl _ => 1
    | inr _ =>
      match letterbox rt arr (target_of image_size) STRIDE true with
      | inl _ => 2
      | inr lb =>
        match to_batch rt lb (device self) with
        | inl _ => 3
        | inr t =>
          match model self t with
          | inl _ => 4
          | inr _ => 5
          end
        end
      end
    end
  end%nat.

(** ** The constructor and the loading of the model (lines 42-67) *)

(** [torch.backends.mps]: absent from the build, so that reading it or one
    of its attributes raises [AttributeError], or present, with what its
    functions [is_built] and [is_available] return. *)
Inductive mps_probe : Type :=
| Mps_missing
| Mps_backend (is_built is_available : bool).

(** An object stored in a checkpoint file. *)
Definition pickled : Type := N.

Record torch_env : Type := {
  cuda_is_available : bool;
  backends_mps : mps_probe;
  torch_load : string -> torch_device -> exn + gmap string pickled;
  (* [.float().fuse().eval()] on the stored model *)
  float_fuse_eval : pickled -> exn + (tensor -> exn + prediction);
  (* [self.model.to(device)] *)
  model_to : torch_device -> exn + unit
}.

(** What the constructor raises: the exception of a collaborator, or the
    [KeyError] of a checkpoint without the key. *)
Inductive init_exn : Type :=
| Raised (e : exn)
| KeyError_key (key : string).

Inductive init_event : Type :=
| Init_call (fn : string)
| Print_sending_model_to_gpu.

(** Lines 45-53.  [torch.backends.mps.is_built] is read, not called: a
    function object is true, and [and] goes on to [is_available()]. *)
Definition select_device (env : torch_env) (force_cpu : bool) : torch_device :=
  let device := cpu in
  if negb force_cpu then
    let device := if cuda_is_available env then cuda0 else device in
    match backends_mps env with
    | Mps_backend _ is_available =>
        if true && is_available then mps else device
    | Mps_missing => device
    end
  else device.

(** Lines 63-67. *)
Definition _load_model (env : torch_env) (model_pt_path : string)
    (device : torch_device) : init_exn + (tensor -> exn + prediction) :=
  match torch_load env model_pt_path device with
  | inl e => inl (Raised e)
  | inr checkpoint =>
      match checkpoint !! "model" with
      | None => inl (KeyError_key "model")
      | Some stored =>
          match float_fuse_eval env stored with
          | inl e => inl (Raised e)
          | inr model => inr model
          end
      end
  end.

(** Lines 42-60: the detector, or the exception, and what was called and
    printed. *)
Definition __init__ (env : torch_env) (model_path : string)
    (force_cpu use_model_native_classes : bool)
    : (init_exn + PTDetector) * list init_event :=
  let device := select_device env force_cpu in
  match _load_model env model_path device with
  | inl e => (inl e, [Init_call "torch.load"])
  | inr model =>
      match device with
      | cpu =>
          (inr (init device model use_model_native_classes),
           [Init_call "torch.load"])
      | _ =>
          match model_to env device with
          | inl e =>
              (inl (Raised e),
               [Init_call "torch.load"; Print_sending_model_to_gpu;
                Init_call "model.to"])
          | inr _ =>
              (inr (init device model use_model_native_classes),
               [Init_call "torch.load"; Print_sending_model_to_gpu;
                Init_call "model.to"])
          end
      end
  end.

(** ** The imports of the module (lines 19-30) *)

(** What can be imported: the modules that exist, and the names they
    define. *)
Record python_path : Type := {
  has_module : string -> bool;
  has_name : string -> string -> bool
}.

(** [ModuleNotFoundError] is a subclass of [ImportError]. *)
Inductive import_exn : Type :=
| ImportError (name : string)
| ModuleNotFoundError (msg : string).

Fixpoint import_names (env : python_path) (m : string) (names : list string)
    : import_exn + unit :=
  match names with
  | [] => inr tt
  | n :: rest =>
      if has_name env m n then import_names env m rest
      else inl (ImportError n)
  end.

(** [from m import n1, n2, ...]. *)
Definition from_import (env : python_path) (m : string) (names : list string)
    : import_exn + unit :=
  if has_module env m then import_names env m names
  else inl (ModuleNotFoundError ("No module named " ++ m)).

(** Lines 19-30: the function of [utils.general] that [scale_coords] is
    bound to, or the exception that leaves the module. *)
Definition import_yolov5 (env : python_path) : import_exn + string :=
  let attempt :=
    match from_import env "utils.general"
            ["non_max_suppression"; "xyxy2xywh"] with
    | inl e => inl e
    | inr _ =>
        match from_import env "utils.augmentations" ["letterbox"] with
        | inl e => inl e
        | inr _ =>
            match from_import env "utils.general" ["scale_coords"] with
            | inr _ => inr "scale_coords"
            | inl _ =>
                (* [except ImportError]: both kinds are caught *)
                match from_import env "utils.general" ["scale_boxes"] with
                | inl e => inl e
                | inr _ => inr "scale_boxes"
                end
            end
        end
    end in
  match attempt with
  | inl (ModuleNotFoundError _) =>
      inl (ModuleNotFoundError "Could not import YOLOv5 functions.")
  | other => other
  end.

(** ** Further notions for the properties of the call *)

(** The collaborators that a call entered, in order. *)
Definition calls_of (tr : list event) : list string :=
  omap (fun ev => match ev with Call fn => Some fn | _ => None end) tr.

(** The stages before the loop, in the order of the source. *)
Definition stage_names : list string :=
  ["np.asarray"; "letterbox"; "to_batch"; "model"; "non_max_suppression"].

(** The frames agree on the locals. *)
Definition same_locals (s s' : frame) : Prop :=
  result s = result s' /\ detections s = detections s' /\
  max_conf s = max_conf s'.

(** A batch that has rows: [if len(det)] of line 148. *)
Definition has_rows (det : list row) : bool := (0 <? length det)%nat.

(** The arguments of one call. *)
Record call_args : Type := {
  arg_image : N;
  arg_id : string;
  arg_threshold : Q;
  arg_size : option size_arg
}.

(** Calls made one after the other on one detector: what was called and
    printed in all of them, and the detector after the last. *)
Fixpoint run_calls (CONF_DIGITS COORD_DIGITS : Z) (FAILURE_INFER : string)
    (rt : runtime) (self : PTDetector) (calls : list call_args)
    : list event * PTDetector :=
  match calls with
  | [] => ([], self)
  | c :: rest =>
      let x := generate_detections_one_image CONF_DIGITS COORD_DIGITS
                 FAILURE_INFER rt self (arg_image c) (arg_id c)
                 (arg_threshold c) (arg_size c) in
      let later := run_calls CONF_DIGITS COORD_DIGITS FAILURE_INFER rt
                     (detector_after x) rest in
      (events x ++ fst later, snd later)
  end.

(** The image of the call can be converted and its size passes line 104. *)
Definition accepted (rt : runtime) (c : call_args) : Prop :=
  (exists arr, np_asarray rt (arg_image c) = inr arr) /\
  match arg_size c with
  | Some sz => valid_image_size sz
  | None => True
  end.

(** The warnings that a run of calls is to print: a non-default size
    warns when the detector is armed, which it is at first and after the
    default size. *)
Fixpoint expected_warnings (armed : bool) (sizes : list (option size_arg))
    : list event :=
  match sizes with
  | [] => []
  | None :: rest => expected_warnings true rest
  | Some sz :: rest =>
      (if armed then [Print_size_warning sz] else [])
        ++ expected_warnings false rest
  end.

(** ** A bench for the constructor and for the imports *)

(** One checkpoint file exists; its model finds the bench animal. *)
Definition bench_torch (cuda : bool) (mps_backend : mps_probe) : torch_env :=
  {| cuda_is_available := cuda;
     backends_mps := mps_backend;
     torch_load := fun path _ =>
       if String.eqb path "md_v5a.pt" then inr {["model" := 7%N]}
       else inl (LibraryError "torch.load");
     float_fuse_eval := fun _ => inr (fun _ => inr [animal]);
     model_to := fun _ => inr tt |}.

(** A YOLOv5 checkout with both modules, with or without the two names
    of the rescaling function. *)
Definition bench_path (old_name new_name : bool) : python_path :=
  {| has_module := fun m =>
       String.eqb m "utils.general" || String.eqb m "utils.augmentations";
     has_name := fun _ n =>
       if String.eqb n "scale_coords" then old_name
       else if String.eqb n "scale_boxes" then new_name
       else true |}.

(** Four calls on the bench: two sizes of the caller, the default size,
    and a size of the caller again. *)
Definition bench_calls : list call_args :=
  [ {| arg_image := 1; arg_id := "a.jpg"; arg_threshold := (1 # 2)%Q;
       arg_size := Some (SizeInt 640) |};
    {| arg_image := 2; arg_id := "b.jpg"; arg_threshold := (1 # 2)%Q;
       arg_size := Some (SizeSeq [640; 960]) |};
    {| arg_image := 3; arg_id := "c.jpg"; arg_threshold := (1 # 2)%Q;
       arg_size := None |};
    {| arg_image := 4; arg_id := "d.jpg"; arg_threshold := (1 # 2)%Q;
       arg_size := Some (SizeInt 640) |} ].

(** ** Tactics for the stages of the pipeline *)

(** One stage of the pipeline is entered: it raises or returns. *)
Ltac stage :=
  match goal with
  | |- context [np_asarray ?r ?i] => destruct (np_asarray r i) eqn:?
  | |- context [check_image_size ?z] =>
      destruct (check_image_size z) as [? | []] eqn:?
  | |- context [negb (warned ?s)] => destruct (warned s) eqn:?
  | |- context [letterbox ?r ?a ?b ?c ?d] =>
      destruct (letterbox r a b c d) eqn:?
  | |- context [to_batch ?r ?a ?d] => destruct (to_batch r a d) eqn:?
  | |- context [model ?x ?t] => destruct (model x t) eqn:?
  | |- context [match device ?x with _ => _ end] => destruct (device x) eqn:?
  | |- context [non_max_suppression ?r ?p ?t] =>
      destruct (non_max_suppression r p t) eqn:?
  | |- context [normalization_gain ?x] =>
      destruct (normalization_gain x) eqn:?
  end; cbn.

(** The same for a hypothesis about the stages. *)
Ltac stage_in H :=
  match type of H with
  | context [np_asarray ?r ?i] => destruct (np_asarray r i) eqn:?
  | context [match ?s with Some _ => _ | None => _ end] => destruct s
  | context [check_image_size ?z] =>
      destruct (check_image_size z) as [? | []] eqn:?
  | context [letterbox ?r ?a ?b ?c ?d] =>
      destruct (letterbox r a b c d) eqn:?
  | context [to_batch ?r ?a ?d] => destruct (to_batch r a d) eqn:?
  | context [match model ?x ?t with _ => _ end] => destruct (model x t) eqn:?
  end.

(** * Properties *)

(** ** Runs of the monad *)

Lemma bind_run {A B} (m : M A) (k : A -> M B) s r s' :
  bind m k s = (r, s') ->
  (exists e, m s = (inl e, s') /\ r = inl e) \/
  (exists a s1, m s = (inr a, s1) /\ k a s1 = (r, s')).
Proof.
  unfold bind. destruct (m s) as [[e | a] s1]; intros H.
  - left. exists e. inversion H; subst. auto.
  - right. exists a, s1. auto.
Qed.

(** The rule of the loop: an invariant indexed by the elements that are
    done, and a condition that holds when the body raises. *)
Lemma for_each_rule {A} (body : A -> M unit)
    (I : list A -> frame -> Prop) (E : exn -> frame -> Prop) (l : list A) :
  (forall done x rest s1 r s2,
      l = done ++ x :: rest -> I done s1 -> body x s1 = (r, s2) ->
      match r with inr _ => I (done ++ [x]) s2 | inl e => E e s2 end) ->
  forall s r s', I [] s -> for_each l body s = (r, s') ->
    match r with inr _ => I l s' | inl e => E e s' end.
Proof.
  intros Hstep.
  assert (G : forall todo done s r s',
             l = done ++ todo -> I done s -> for_each todo body s = (r, s') ->
             match r with inr _ => I l s' | inl e => E e s' end).
  { induction todo as [| x todo IH]; intros done s r s' Hl HI Hrun.
    - cbn in Hrun. inversion Hrun; subst. rewrite app_nil_r. exact HI.
    - cbn in Hrun. apply bind_run in Hrun as [(e & Hb & ->) | (u & s1 & Hb & Hk)].
      + exact (Hstep done x todo s (inl e) s' Hl HI Hb).
      + pose proof (Hstep done x todo s (inr u) s1 Hl HI Hb) as HI1.
        cbn in HI1. apply (IH (done ++ [x]) s1 r s'); auto.
        rewrite <- app_assoc. exact Hl. }
  intros s r s' HI Hrun. exact (G l [] s r s' eq_refl HI Hrun).
Qed.

Lemma pushes_app ds d s : pushes (ds ++ [d]) s = push d (pushes ds s).
Proof. unfold pushes. rewrite fold_left_app. reflexivity. Qed.

Lemma pushes_fields ds s :
  warned (pushes ds s) = warned s /\
  result (pushes ds s) = result s /\
  detections (pushes ds s) = detections s ++ ds /\
  max_conf (pushes ds s) = running_max (map conf ds) (max_conf s) /\
  trace (pushes ds s) = trace s.
Proof.
  revert s. induction ds as [| d ds IH]; intros s; cbn.
  - rewrite app_nil_r. auto.
  - destruct (IH (push d s)) as (H1 & H2 & H3 & H4 & H5).
    fold (pushes ds (push d s)).
    rewrite H1, H2, H3, H4, H5. cbn. rewrite <- app_assoc. auto.
Qed.

Lemma Forall_concat_rev {A} (P : A -> Prop) (bs : list (list A)) :
  Forall P (concat (map (@rev A) bs)) <-> Forall P (concat bs).
Proof.
  induction bs as [| b bs IH]; cbn; [reflexivity |].
  rewrite !List.Forall_app, IH.
  assert (Forall P (rev b) <-> Forall P b); [| tauto].
  rewrite !List.Forall_forall. split; intros H x Hx; apply H.
  - apply in_rev in Hx. exact Hx.
  - apply in_rev. exact Hx.
Qed.

Lemma length_concat_rev {A} (bs : list (list A)) :
  length (concat (map (@rev A) bs)) = length (concat bs).
Proof.
  induction bs as [| b bs IH]; cbn; [reflexivity |].
  rewrite !length_app, length_rev, IH. reflexivity.
Qed.


Section Runs.

Variables CONF_DIGITS COORD_DIGITS : Z.
Variable FAILURE_INFER : string.
Variable rt : runtime.
Variable self : PTDetector.

Let fmt := format_pure CONF_DIGITS COORD_DIGITS (use_model_native_classes self).

(** A row is formatted in one step: it is refused with the exception of
    its class, or its detection is pushed. *)
Lemma format_row_run gn r s :
  format_row CONF_DIGITS COORD_DIGITS self gn r s =
  match fmt gn r with
  | inl e => (inl e, s)
  | inr d => (inr tt, push d s)
  end.
Proof.
  unfold format_row, fmt, format_pure, bind, lift.
  destruct (class_id _ _); reflexivity.
Qed.

(** The loop over the rows of a batch: a prefix is formatted and pushed;
    the loop ends with the list, or at the first row that is refused. *)
Lemma rows_run gn rows s res s' :
  for_each rows (format_row CONF_DIGITS COORD_DIGITS self gn) s = (res, s') ->
  exists done rest ds,
    rows = done ++ rest /\
    Forall2 (fun r d => fmt gn r = inr d) done ds /\
    s' = pushes ds s /\
    match res with
    | inr _ => rest = []
    | inl e => exists r rest', rest = r :: rest' /\ fmt gn r = inl e
    end.
Proof.
  intros Hrun.
  set (I := fun (done : list row) (s1 : frame) => exists ds,
         Forall2 (fun r d => fmt gn r = inr d) done ds /\ s1 = pushes ds s).
  set (E := fun (e : exn) (s1 : frame) => exists done rest ds r rest',
         rows = done ++ rest /\
         Forall2 (fun r d => fmt gn r = inr d) done ds /\
         s1 = pushes ds s /\ rest = r :: rest' /\ fmt gn r = inl e).
  assert (Hres : match res with inr _ => I rows s' | inl e => E e s' end).
  { apply (for_each_rule (format_row CONF_DIGITS COORD_DIGITS self gn) I E rows)
      with (s := s); [ | exists []; split; [constructor | reflexivity] | exact Hrun].
    intros done x rest s1 r s2 Hl (ds & HF & ->) Hb.
    rewrite format_row_run in Hb.
    destruct (fmt gn x) as [e | d] eqn:Hx; inversion Hb; subst.
    - exists done, (x :: rest), ds, x, rest. auto.
    - exists (ds ++ [d]). split.
      + apply Forall2_app; auto.
      + symmetry. apply pushes_app. }
  destruct res as [e | u].
  - destruct Hres as (done & rest & ds & r & rest' & H1 & H2 & H3 & H4 & H5).
    exists done, rest, ds. repeat split; eauto.
  - destruct Hres as (ds & HF & ->).
    exists rows, [], ds. rewrite app_nil_r. auto.
Qed.

Lemma extends_refl s : extends s s [] [].
Proof. unfold extends. cbn. rewrite !app_nil_r. auto. Qed.

Lemma extends_trans s s1 s2 ds1 ds2 evs1 evs2 :
  extends s s1 ds1 evs1 -> extends s1 s2 ds2 evs2 ->
  extends s s2 (ds1 ++ ds2) (evs1 ++ evs2).
Proof.
  intros (A1 & A2 & A3 & A4 & A5) (B1 & B2 & B3 & B4 & B5).
  unfold extends. rewrite B1, B2, B3, B4, B5, A1, A2, A3, A4, A5.
  rewrite !app_assoc. repeat split; auto.
  unfold running_max. rewrite map_app, fold_left_app. reflexivity.
Qed.

Lemma extends_pushes ds s : extends s (pushes ds s) ds [].
Proof.
  destruct (pushes_fields ds s) as (H1 & H2 & H3 & H4 & H5).
  unfold extends. rewrite H1, H2, H3, H4, H5, app_nil_r. auto.
Qed.

Lemma extends_emit evs s : extends s (emit evs s) [] evs.
Proof. unfold extends. cbn. rewrite app_nil_r. auto. Qed.

Lemma zip_with_box_conf det boxes :
  length boxes = length det ->
  map row_conf (zip_with with_box det boxes) = map row_conf det /\
  map row_cls (zip_with with_box det boxes) = map row_cls det.
Proof.
  revert boxes. induction det as [| r det IH]; intros [| b boxes] Hlen;
    cbn in *; try discriminate; auto.
  destruct (IH boxes) as [H1 H2]; [lia |]. rewrite H1, H2. auto.
Qed.

Lemma zip_with_box_in det boxes r' :
  In r' (zip_with with_box det boxes) ->
  exists r b, In r det /\ In b boxes /\ r' = with_box r b.
Proof.
  revert boxes. induction det as [| r det IH]; intros [| b boxes] Hin;
    cbn in *; try contradiction.
  destruct Hin as [<- | Hin].
  - exists r, b. auto.
  - destruct (IH boxes Hin) as (r0 & b0 & H1 & H2 & H3).
    exists r0, b0. auto.
Qed.

(** One batch: the rows that were formatted stem from the batch and from
    the boxes of [scale_coords]; when the batch is done, they are its
    rows in reverse, each with its confidence and class. *)
Lemma batch_run t arr gn det s res s' :
  format_batch CONF_DIGITS COORD_DIGITS rt self t arr gn det s = (res, s') ->
  exists rows ds evs,
    extends s s' ds evs /\ only_rescaling evs /\
    Forall2 (fun r d => fmt gn r = inr d) rows ds /\
    Forall (came_from rt t arr [det]) rows /\
    (length rows <= length det)%nat /\
    (forall u, res = inr u ->
       map row_conf rows = map row_conf (rev det) /\
       map row_cls rows = map row_cls (rev det)).
Proof.
  unfold format_batch. destruct det as [| r0 det0] eqn:Hdet.
  { cbn. intros H. inversion H; subst. exists [], [], [].
    split; [apply extends_refl |]. repeat split; constructor. }
  rewrite <- Hdet. replace (0 <? length det)%nat with true
    by (subst det; reflexivity).
  unfold call, bind, log, lift.
  fold (emit [Call "scale_coords"] s).
  destruct (scale_coords rt _ _ _) as [e | scaled] eqn:Hsc.
  { intros H. inversion H; subst res s'. exists [], [], [Call "scale_coords"].
    split; [apply extends_emit |].
    repeat split; try discriminate; repeat constructor; cbn; lia. }
  unfold assign_boxes.
  destruct (length (map round_box scaled) =? length det)%nat eqn:Hlen.
  2:{ intros H. inversion H; subst res s'. exists [], [], [Call "scale_coords"].
      split; [apply extends_emit |].
      repeat split; try discriminate; repeat constructor; cbn; lia. }
  apply Nat.eqb_eq in Hlen.
  intros Hrun. apply rows_run in Hrun
    as (done & rest & ds & Hsplit & HF & -> & Hres).
  assert (Hlen' : length (zip_with with_box det (map round_box scaled))
                  = length det).
  { pose proof (proj1 (zip_with_box_conf det (map round_box scaled) Hlen)) as Hz.
    apply (f_equal (@length Q)) in Hz. rewrite !length_map in Hz. exact Hz. }
  exists done, ds, [Call "scale_coords"].
  split; [| split; [| split; [| split; [| split]]]].
  - replace ds with ([] ++ ds) by reflexivity.
    replace [Call "scale_coords"] with ([Call "scale_coords"] ++ []) by reflexivity.
    eapply extends_trans; [apply extends_emit | apply extends_pushes].
  - repeat constructor.
  - exact HF.
  - apply List.Forall_forall. intros r' Hin.
    assert (Hin' : In r' (zip_with with_box det (map round_box scaled))).
    { apply in_rev. rewrite Hsplit. apply in_or_app. auto. }
    apply zip_with_box_in in Hin' as (r & b & Hr & Hb & ->).
    apply in_map_iff in Hb as (b0 & <- & Hb0).
    exists det, r, scaled, b0. cbn. auto.
  - apply (f_equal (@length row)) in Hsplit.
    rewrite length_rev, length_app, Hlen' in Hsplit. lia.
  - intros u ->. subst rest. rewrite app_nil_r in Hsplit. subst done.
    destruct (zip_with_box_conf det (map round_box scaled) Hlen) as [H1 H2].
    rewrite !map_rev, H1, H2. auto.
Qed.

Lemma came_from_batch t arr det batches r :
  In det batches -> came_from rt t arr [det] r -> came_from rt t arr batches r.
Proof.
  intros Hin (det0 & r0 & scaled & b & [<- | []] & H).
  exists det, r0, scaled, b. auto.
Qed.

(** The loop over the batches. *)
Lemma batches_run t arr gn batches s res s' :
  for_each batches
    (format_batch CONF_DIGITS COORD_DIGITS rt self t arr gn) s = (res, s') ->
  exists rows ds evs,
    extends s s' ds evs /\ only_rescaling evs /\
    Forall2 (fun r d => fmt gn r = inr d) rows ds /\
    Forall (came_from rt t arr batches) rows /\
    (length rows <= length (concat batches))%nat /\
    (forall u, res = inr u ->
       map row_conf rows = map row_conf (concat (map (@rev row) batches)) /\
       map row_cls rows = map row_cls (concat (map (@rev row) batches))).
Proof.
  intros Hrun.
  set (C := fun (s1 : frame) (rows : list row) (ds : list detection)
                (evs : list event) =>
         extends s s1 ds evs /\ only_rescaling evs /\
         Forall2 (fun r d => fmt gn r = inr d) rows ds /\
         Forall (came_from rt t arr batches) rows /\
         (length rows <= length (concat batches))%nat).
  set (I := fun (done : list (list row)) (s1 : frame) =>
         exists rows ds evs, C s1 rows ds evs /\
           map row_conf rows = map row_conf (concat (map (@rev row) done)) /\
           map row_cls rows = map row_cls (concat (map (@rev row) done))).
  set (E := fun (_ : exn) (s1 : frame) => exists rows ds evs, C s1 rows ds evs).
  assert (Hres : match res with inr _ => I batches s' | inl e => E e s' end).
  { apply (for_each_rule
             (format_batch CONF_DIGITS COORD_DIGITS rt self t arr gn) I E batches)
      with (s := s); [ | | exact Hrun].
    - intros done det rest s1 r s2 Hl (rows & ds & evs & HC & Hc1 & Hc2) Hb.
      destruct HC as (Hext & Hev & HF & Hfrom & _).
      apply batch_run in Hb
        as (rows2 & ds2 & evs2 & Hext2 & Hev2 & HF2 & Hfrom2 & Hle2 & Hdone).
      assert (HC' : C s2 (rows ++ rows2) (ds ++ ds2) (evs ++ evs2)).
      { split; [eapply extends_trans; eauto |].
        split; [apply Forall_app; auto |].
        split; [apply Forall2_app; auto |].
        split.
        - apply Forall_app. split; [exact Hfrom |].
          eapply Forall_impl; [exact Hfrom2 |].
          intros r0. apply came_from_batch. subst batches.
          apply in_or_app. right. left. reflexivity.
        - apply (f_equal (@length Q)) in Hc1.
          rewrite !length_map, length_concat_rev in Hc1.
          subst batches. rewrite concat_app. cbn [concat].
          rewrite !length_app. lia. }
      destruct r as [e | u].
      + exists (rows ++ rows2), (ds ++ ds2), (evs ++ evs2). exact HC'.
      + exists (rows ++ rows2), (ds ++ ds2), (evs ++ evs2).
        split; [exact HC' |].
        destruct (Hdone u eq_refl) as [Hd1 Hd2].
        rewrite !map_app, !concat_app, !map_app. cbn [map concat].
        rewrite !app_nil_r, Hc1, Hc2, Hd1, Hd2. auto.
    - exists [], [], []. split; [| cbn; auto].
      split; [apply extends_refl |]. repeat split; try constructor.
      cbn. lia. }
  destruct res as [e | u].
  - destruct Hres as (rows & ds & evs & H1 & H2 & H3 & H4 & H5).
    exists rows, ds, evs.
    split; [exact H1 |]. split; [exact H2 |]. split; [exact H3 |].
    split; [exact H4 |]. split; [exact H5 |]. intros u Hu. discriminate.
  - destruct Hres as (rows & ds & evs & (H1 & H2 & H3 & H4 & H5) & H6 & H7).
    exists rows, ds, evs.
    split; [exact H1 |]. split; [exact H2 |]. split; [exact H3 |].
    split; [exact H4 |]. split; [exact H5 |]. intros _ _. auto.
Qed.

Lemma size_warnings_app tr1 tr2 :
  size_warnings (tr1 ++ tr2) = size_warnings tr1 ++ size_warnings tr2.
Proof. unfold size_warnings. apply List.filter_app. Qed.

(** The stages before the loop leave the locals alone; they return what
    [survivors] and the gain say, and they move the warning flag as
    [warning_step] says once the size has been checked. *)
Lemma preprocess_and_infer_run img thr size s res s' :
  preprocess_and_infer rt self img thr size s = (res, s') ->
  result s' = result s /\ detections s' = detections s /\
  max_conf s' = max_conf s /\
  match survivors rt self img thr size with
  | inl e => res = inl e
  | inr (arr, t, batches) =>
      match normalization_gain (shape arr) with
      | inl e => res = inl e
      | inr gn => res = inr (arr, t, batches, gn)
      end
  end /\
  exists evs, trace s' = trace s ++ Call "np.asarray" :: evs /\
    match np_asarray rt img with
    | inl _ => warned s' = warned s /\ evs = []
    | inr _ =>
        match size with
        | Some sz =>
            match check_image_size sz with
            | inl _ => warned s' = warned s /\ evs = []
            | inr _ =>
                warned s' = fst (warning_step (warned s) size) /\
                size_warnings evs = snd (warning_step (warned s) size)
            end
        | None =>
            warned s' = fst (warning_step (warned s) size) /\
            size_warnings evs = snd (warning_step (warned s) size)
        end
    end.
Proof.
  unfold preprocess_and_infer, survivors, staged, choose_target_size, call, bind,
    log, lift, ret, get_warned, set_warned, target_of.
  assert (Hleaf : forall (tr evs0 : list event) (P : list event -> Prop),
             P evs0 ->
             exists evs, tr ++ Call "np.asarray" :: evs0
                         = tr ++ Call "np.asarray" :: evs /\ P evs)
    by (intros tr evs0 P HP; exists evs0; auto).
  destruct size as [sz |]; repeat stage;
    intros H; inversion H; subst res s'; cbn;
    (split; [reflexivity |]); (split; [reflexivity |]);
    (split; [reflexivity |]); (split; [reflexivity |]);
    rewrite <- ?app_assoc; cbn [app]; apply Hleaf; cbn; auto.
Qed.
Lemma size_warnings_rescaling evs :
  only_rescaling evs -> size_warnings evs = [].
Proof.
  induction 1 as [| ev evs Hev _ IH]; [reflexivity |].
  subst ev. cbn. exact IH.
Qed.

(** The body of [try], from any frame. *)
Lemma try_block_run img thr size s res s' :
  try_block CONF_DIGITS COORD_DIGITS rt self img thr size s = (res, s') ->
  result s' = result s /\
  (exists ds,
     detections s' = detections s ++ ds /\
     max_conf s' = running_max (map conf ds) (max_conf s) /\
     match survivors rt self img thr size with
     | inl e => res = inl e /\ ds = []
     | inr (arr, t, batches) =>
         match normalization_gain (shape arr) with
         | inl e => res = inl e /\ ds = []
         | inr gn =>
             exists rows,
               Forall2 (fun r d => fmt gn r = inr d) rows ds /\
               Forall (came_from rt t arr batches) rows /\
               (length rows <= length (concat batches))%nat /\
               (forall u, res = inr u ->
                  map row_conf rows
                    = map row_conf (concat (map (@rev row) batches)) /\
                  map row_cls rows
                    = map row_cls (concat (map (@rev row) batches)))
         end
     end) /\
  exists evs, trace s' = trace s ++ Call "np.asarray" :: evs /\
    match np_asarray rt img with
    | inl _ => warned s' = warned s /\ evs = []
    | inr _ =>
        match size with
        | Some sz =>
            match check_image_size sz with
            | inl _ => warned s' = warned s /\ evs = []
            | inr _ =>
                warned s' = fst (warning_step (warned s) size) /\
                size_warnings evs = snd (warning_step (warned s) size)
            end
        | None =>
            warned s' = fst (warning_step (warned s) size) /\
            size_warnings evs = snd (warning_step (warned s) size)
        end
    end.
Proof.
  unfold try_block. intros Hrun.
  apply bind_run in Hrun as [(e & Hpre & ->) | (st & s1 & Hpre & Hloop)];
    apply preprocess_and_infer_run in Hpre
      as (Hr & Hd & Hm & Hsurv & evs & Htr & Hflag).
  - split; [exact Hr |]. split.
    + exists []. rewrite app_nil_r. split; [exact Hd |]. split; [exact Hm |].
      destruct (survivors rt self img thr size) as [e' | [[arr t] batches]];
        [split; [congruence | reflexivity] |].
      destruct (normalization_gain (shape arr));
        [split; [congruence | reflexivity] | discriminate].
    + exists evs. auto.
  - destruct st as [[[arr t] batches] gn].
    apply batches_run in Hloop
      as (rows & ds & evs2 & (E1 & E2 & E3 & E4 & E5) & Hev & HF & Hfrom
          & Hle & Hdone).
    split; [congruence |]. split.
    + exists ds. rewrite E3, E4, Hd, Hm. split; [reflexivity |].
      split; [reflexivity |].
      destruct (survivors rt self img thr size) as [e' | [[arr' t'] batches']];
        [discriminate |].
      destruct (normalization_gain (shape arr')); [discriminate |].
      inversion Hsurv; subst. exists rows. auto.
    + exists (evs ++ evs2). rewrite E5, Htr, E1.
      split; [rewrite <- app_assoc; reflexivity |].
      assert (Hw : size_warnings (evs ++ evs2) = size_warnings evs).
      { rewrite size_warnings_app, (size_warnings_rescaling evs2 Hev).
        apply app_nil_r. }
      rewrite Hw.
      destruct (np_asarray rt img) as [e0 | arr0] eqn:Hnp.
      { unfold survivors, staged in Hsurv. rewrite Hnp in Hsurv. discriminate. }
      destruct size as [sz |]; [| exact Hflag].
      destruct (check_image_size sz) eqn:Hck; [| exact Hflag].
      unfold survivors, staged in Hsurv. rewrite Hnp, Hck in Hsurv. discriminate.
Qed.

(** The call, from the run of the body of [try]. *)
Lemma generate_run img id thr size res s1 :
  try_block CONF_DIGITS COORD_DIGITS rt self img thr size (entry self id)
    = (res, s1) ->
  generate_detections_one_image CONF_DIGITS COORD_DIGITS FAILURE_INFER
    rt self img id thr size =
  match res with
  | inr _ =>
      (inr (record id None (max_conf s1) (detections s1)),
       with_flag self (warned s1), trace s1)
  | inl e =>
      let tr := trace s1 ++ [Print_failure id e; Call "traceback.print_exc"] in
      match traceback_print_exc rt (PyExc e) with
      | inl e' => (inl e', with_flag self (warned s1), tr)
      | inr _ =>
          (inr (record id (Some FAILURE_INFER) (max_conf s1) (detections s1)),
           with_flag self (warned s1), tr)
      end
  end.
Proof.
  intros Hrun. pose proof (try_block_run _ _ _ _ _ _ Hrun) as [Hres _].
  unfold generate_detections_one_image, generate_detections_one_image_body,
    try_except, bind at 1.
  rewrite Hrun. destruct res as [e | []].
  - unfold handler, call, bind, log, lift, set_item, get_locals, get_result.
    cbn. destruct (traceback_print_exc rt (PyExc e)) as [e' | []]; cbn.
    + rewrite <- app_assoc. reflexivity.
    + rewrite <- app_assoc, Hres. reflexivity.
  - unfold bind, set_item, get_locals, get_result. cbn.
    rewrite Hres. reflexivity.
Qed.

End Runs.

(** ** The loop, exactly *)

Section Exact.

Variables CONF_DIGITS COORD_DIGITS : Z.
Variable rt : runtime.
Variable self : PTDetector.

Let fmt := format_pure CONF_DIGITS COORD_DIGITS (use_model_native_classes self).

Lemma running_max_app ds1 ds2 m :
  running_max (map conf (ds1 ++ ds2)) m
  = running_max (map conf ds2) (running_max (map conf ds1) m).
Proof. unfold running_max. rewrite map_app, fold_left_app. reflexivity. Qed.

(** One batch: the rows that are visited are formatted in turn, up to the
    first that is refused. *)
Lemma batch_exact t arr gn det s res s' :
  format_batch CONF_DIGITS COORD_DIGITS rt self t arr gn det s = (res, s') ->
  exists ds,
    result s' = result s /\
    detections s' = detections s ++ ds /\
    max_conf s' = running_max (map conf ds) (max_conf s) /\
    match visited rt t arr det with
    | inl e => res = inl e /\ ds = []
    | inr rows =>
        exists done rest,
          rows = done ++ rest /\
          Forall2 (fun r d => fmt gn r = inr d) done ds /\
          match res with
          | inr _ => rest = []
          | inl e => exists r rest', rest = r :: rest' /\ fmt gn r = inl e
          end
    end.
Proof.
  unfold format_batch, visited.
  destruct (0 <? length det)%nat.
  2:{ cbn. intros [= <- <-]. exists []. rewrite app_nil_r.
      repeat (split; [reflexivity |]).
      exists [], []. repeat split. constructor. }
  unfold call, bind, log, lift.
  destruct (scale_coords rt _ _ _) as [e | scaled].
  { intros [= <- <-]. exists []. cbn. rewrite app_nil_r. auto. }
  destruct (assign_boxes det (map round_box scaled)) as [e | det'].
  { intros [= <- <-]. exists []. cbn. rewrite app_nil_r. auto. }
  intros H. apply rows_run in H as (done & rest & ds & Hsplit & HF & -> & Hres).
  destruct (pushes_fields ds
              {| warned := warned s; result := result s;
                 detections := detections s; max_conf := max_conf s;
                 trace := trace s ++ [Call "scale_coords"] |})
    as (_ & Hr & Hd & Hm & _).
  exists ds. split; [exact Hr |]. split; [exact Hd |]. split; [exact Hm |].
  exists done, rest. auto.
Qed.

(** All batches: those before the first that fails are formatted row by
    row, and the failing one up to the row that is refused. *)
Lemma batches_exact t arr gn batches : forall s res s',
  for_each batches
    (format_batch CONF_DIGITS COORD_DIGITS rt self t arr gn) s = (res, s') ->
  exists ds,
    result s' = result s /\
    detections s' = detections s ++ ds /\
    max_conf s' = running_max (map conf ds) (max_conf s) /\
    match res with
    | inr _ =>
        exists rows_all,
          Forall2 (fun det rows => visited rt t arr det = inr rows)
            batches rows_all /\
          Forall2 (fun r d => fmt gn r = inr d) (concat rows_all) ds
    | inl e =>
        exists done bad rest rows_done pre,
          batches = done ++ bad :: rest /\
          Forall2 (fun det rows => visited rt t arr det = inr rows)
            done rows_done /\
          (visited rt t arr bad = inl e /\ pre = [] \/
           exists r post,
             visited rt t arr bad = inr (pre ++ r :: post) /\
             fmt gn r = inl e) /\
          Forall2 (fun r d => fmt gn r = inr d) (concat rows_done ++ pre) ds
    end.
Proof.
  induction batches as [| det batches IH]; intros s res s' H.
  { cbn in H. injection H as <- <-. exists []. rewrite app_nil_r.
    repeat (split; [reflexivity |]).
    exists []. split; constructor. }
  cbn [for_each] in H.
  apply bind_run in H as [(e & Hb & ->) | ([] & s1 & Hb & Hrest)];
    apply batch_exact in Hb as (ds1 & Hr1 & Hd1 & Hm1 & Hv).
  - exists ds1. split; [exact Hr1 |]. split; [exact Hd1 |].
    split; [exact Hm1 |].
    exists [], det, batches, [].
    destruct (visited rt t arr det) as [e' | rows] eqn:Hvis.
    + destruct Hv as [[= ->] ->]. exists [].
      split; [reflexivity |]. split; [constructor |].
      split; [left; auto | constructor].
    + destruct Hv as (done & rest & -> & HF & r & rest' & -> & Hbad).
      exists done. split; [reflexivity |]. split; [constructor |].
      split; [right; exists r, rest'; auto | exact HF].
  - apply IH in Hrest as (ds2 & Hr2 & Hd2 & Hm2 & Hres).
    destruct (visited rt t arr det) as [e' | rows] eqn:Hvis;
      [destruct Hv as [Hv _]; discriminate |].
    destruct Hv as (done & rest & -> & HF & ->). rewrite app_nil_r in Hvis.
    exists (ds1 ++ ds2).
    split; [congruence |].
    split; [rewrite Hd2, Hd1, app_assoc; reflexivity |].
    split; [rewrite Hm2, Hm1, running_max_app; reflexivity |].
    destruct res as [e | u].
    + destruct Hres as (dn & bad & rst & rows_done & pre & -> & HFd & Hbad & HFr).
      exists (det :: dn), bad, rst, (done :: rows_done), pre.
      split; [reflexivity |]. split; [constructor; assumption |].
      split; [exact Hbad |].
      cbn [concat]. rewrite <- app_assoc. apply Forall2_app; assumption.
    + destruct Hres as (rows_all & HFa & HFr).
      exists (done :: rows_all). split; [constructor; assumption |].
      cbn [concat]. apply Forall2_app; assumption.
Qed.

(** The body of [try], exactly. *)
Lemma try_block_exact img thr size s res s' :
  try_block CONF_DIGITS COORD_DIGITS rt self img thr size s = (res, s') ->
  exists ds,
    result s' = result s /\
    detections s' = detections s ++ ds /\
    max_conf s' = running_max (map conf ds) (max_conf s) /\
    match survivors rt self img thr size with
    | inl e => res = inl e /\ ds = []
    | inr (arr, t, batches) =>
        match normalization_gain (shape arr) with
        | inl e => res = inl e /\ ds = []
        | inr gn =>
            match res with
            | inr _ =>
                exists rows_all,
                  Forall2 (fun det rows => visited rt t arr det = inr rows)
                    batches rows_all /\
                  Forall2 (fun r d => fmt gn r = inr d) (concat rows_all) ds
            | inl e =>
                exists done bad rest rows_done pre,
                  batches = done ++ bad :: rest /\
                  Forall2 (fun det rows => visited rt t arr det = inr rows)
                    done rows_done /\
                  (visited rt t arr bad = inl e /\ pre = [] \/
                   exists r post,
                     visited rt t arr bad = inr (pre ++ r :: post) /\
                     fmt gn r = inl e) /\
                  Forall2 (fun r d => fmt gn r = inr d)
                    (concat rows_done ++ pre) ds
            end
        end
    end.
Proof.
  unfold try_block. intros H.
  apply bind_run in H as [(e & Hp & ->) | (a & s1 & Hp & Hrest)];
    apply preprocess_and_infer_run in Hp as (Hr & Hd & Hm & Hres & _).
  - exists []. cbn. rewrite app_nil_r.
    split; [exact Hr |]. split; [exact Hd |]. split; [exact Hm |].
    destruct (survivors rt self img thr size) as [e' | [[arr t] batches]];
      [split; [congruence | reflexivity] |].
    destruct (normalization_gain (shape arr)) as [e' | gn];
      [split; [congruence | reflexivity] | discriminate].
  - destruct (survivors rt self img thr size) as [e' | [[arr t] batches]];
      [discriminate |].
    destruct (normalization_gain (shape arr)) as [e' | gn]; [discriminate |].
    injection Hres as ->. cbn in Hrest.
    apply batches_exact in Hrest as (ds & Hr' & Hd' & Hm' & Hcase).
    exists ds. split; [congruence |].
    split; [rewrite Hd', Hd; reflexivity |].
    split; [rewrite Hm', Hm; reflexivity |].
    exact Hcase.
Qed.

(** The visited rows of a batch have the classes and the confidences of
    its rows, last row first. *)
Lemma visited_columns t arr det rows :
  visited rt t arr det = inr rows ->
  map row_cls rows = map row_cls (rev det) /\
  map row_conf rows = map row_conf (rev det).
Proof.
  unfold visited.
  destruct (0 <? length det)%nat eqn:Hlen.
  2:{ intros [= <-]. apply Nat.ltb_ge in Hlen.
      destruct det; [auto | cbn in Hlen; lia]. }
  destruct (scale_coords rt _ _ _) as [e | scaled]; [discriminate |].
  unfold assign_boxes.
  destruct (length (map round_box scaled) =? length det)%nat eqn:Hl;
    [| discriminate].
  apply Nat.eqb_eq in Hl. intros [= <-].
  destruct (zip_with_box_conf det (map round_box scaled) Hl) as [H1 H2].
  rewrite !map_rev, H1, H2. auto.
Qed.

Lemma visited_all_columns t arr batches rows_all :
  Forall2 (fun det rows => visited rt t arr det = inr rows)
    batches rows_all ->
  map row_cls (concat rows_all)
    = map row_cls (concat (map (@rev row) batches)) /\
  map row_conf (concat rows_all)
    = map row_conf (concat (map (@rev row) batches)).
Proof.
  induction 1 as [| det rows batches rows_all Hv _ [IH1 IH2]]; [auto |].
  cbn [map concat]. rewrite !map_app, IH1, IH2.
  destruct (visited_columns _ _ _ _ Hv) as [-> ->]. auto.
Qed.

Lemma visited_functional t arr batches rows1 rows2 :
  Forall2 (fun det rows => visited rt t arr det = inr rows) batches rows1 ->
  Forall2 (fun det rows => visited rt t arr det = inr rows) batches rows2 ->
  rows1 = rows2.
Proof.
  intros H1. revert rows2.
  induction H1 as [| det rows batches rows1 Hv _ IH]; intros rows2 H2;
    inversion H2; subst; [reflexivity |].
  f_equal; [congruence | apply IH; assumption].
Qed.

End Exact.

(** ** Truncation to significant digits *)

Local Open Scope Q_scope.

Lemma ten_pos (z : Z) : 0 < 10 ^ z.
Proof. apply Qpower_0_lt. reflexivity. Qed.

Lemma ten_succ (z : Z) : 10 ^ (z + 1) == 10 ^ z * 10.
Proof. rewrite Qpower_plus by discriminate. reflexivity. Qed.

Lemma ten_pred (z : Z) : 10 ^ (z - 1) * 10 == 10 ^ z.
Proof.
  replace z with ((z - 1) + 1)%Z at 2 by lia. rewrite ten_succ. reflexivity.
Qed.

Lemma ten_mono (a b : Z) : (a <= b)%Z -> 10 ^ a <= 10 ^ b.
Proof. intros H. apply Qpower_le_compat_l; [exact H | discriminate]. Qed.

Lemma ten_inject (n : Z) : (0 <= n)%Z -> inject_Z (10 ^ n) == 10 ^ n.
Proof. intros H. rewrite Zpower_Qpower by exact H. reflexivity. Qed.

Lemma log10_up_spec fuel : forall x k,
  10 ^ k <= x -> x < 10 ^ (k + Z.of_nat fuel) ->
  10 ^ log10_up fuel x k <= x /\ x < 10 ^ (log10_up fuel x k + 1).
Proof.
  induction fuel as [| fuel IH]; intros x k Hlo Hhi.
  - exfalso. rewrite Z.add_0_r in Hhi.
    apply (Qlt_irrefl x). eapply Qlt_le_trans; eassumption.
  - cbn [log10_up]. destruct (Qle_bool (10 ^ (k + 1)) x) eqn:Hb.
    + apply Qle_bool_iff in Hb. apply IH; [exact Hb |].
      replace (k + 1 + Z.of_nat fuel)%Z with (k + Z.of_nat (S fuel))%Z by lia.
      exact Hhi.
    + split; [exact Hlo |]. apply Qnot_le_lt. intros Hle.
      apply Qle_bool_iff in Hle. congruence.
Qed.

Lemma log10_down_spec fuel : forall x k,
  x < 10 ^ k -> 10 ^ (k - Z.of_nat fuel) <= x ->
  10 ^ log10_down fuel x k <= x /\ x < 10 ^ (log10_down fuel x k + 1).
Proof.
  induction fuel as [| fuel IH]; intros x k Hhi Hlo.
  - exfalso. rewrite Z.sub_0_r in Hlo.
    apply (Qlt_irrefl x). eapply Qlt_le_trans; eassumption.
  - cbn [log10_down]. destruct (Qle_bool (10 ^ (k - 1)) x) eqn:Hb.
    + apply Qle_bool_iff in Hb. split; [exact Hb |].
      replace (k - 1 + 1)%Z with k by lia. exact Hhi.
    + apply IH.
      * apply Qnot_le_lt. intros Hle. apply Qle_bool_iff in Hle. congruence.
      * replace (k - 1 - Z.of_nat fuel)%Z with (k - Z.of_nat (S fuel))%Z by lia.
        exact Hlo.
Qed.

Lemma two_le_ten (n : Z) : (0 <= n)%Z -> (2 ^ n <= 10 ^ n)%Z.
Proof. intros H. apply Z.pow_le_mono_l. lia. Qed.

(** A positive integer is below ten to the power of its binary length. *)
Lemma below_ten_pow (n : Z) :
  (0 < n)%Z -> (n < 10 ^ (Z.log2 n + 1))%Z.
Proof.
  intros Hn. pose proof (Z.log2_spec n Hn) as [_ H].
  pose proof (Z.log2_nonneg n).
  replace (Z.succ (Z.log2 n)) with (Z.log2 n + 1)%Z in H by lia.
  pose proof (two_le_ten (Z.log2 n + 1)). lia.
Qed.

Lemma floor_log10_spec x :
  0 < x -> 10 ^ floor_log10 x <= x /\ x < 10 ^ (floor_log10 x + 1).
Proof.
  intros Hx. unfold floor_log10.
  assert (Hnum : (0 < Qnum x)%Z).
  { destruct x as [n d]. unfold Qlt in Hx. cbn in *. lia. }
  destruct (Qle_bool 1 x) eqn:Hb.
  - apply Qle_bool_iff in Hb. apply log10_up_spec; [exact Hb |].
    pose proof (Z.log2_nonneg (Qnum x)).
    replace (0 + Z.of_nat (S (Z.to_nat (Z.log2 (Qnum x)))))%Z
      with (Z.log2 (Qnum x) + 1)%Z by lia.
    rewrite <- ten_inject by lia.
    pose proof (below_ten_pow (Qnum x) Hnum) as Hlt.
    apply Qle_lt_trans with (inject_Z (Qnum x)).
    + destruct x as [n d]. unfold Qle, inject_Z. cbn in *. nia.
    + rewrite <- Zlt_Qlt. exact Hlt.
  - assert (Hlt1 : x < 1).
    { apply Qnot_le_lt. intros Hle. apply Qle_bool_iff in Hle. congruence. }
    apply log10_down_spec; [exact Hlt1 |].
    pose proof (Z.log2_nonneg (Z.pos (Qden x))).
    set (k := (Z.log2 (Z.pos (Qden x)) + 1)%Z).
    replace (0 - Z.of_nat (S (Z.to_nat (Z.log2 (Z.pos (Qden x))))))%Z
      with (- k)%Z by (unfold k; lia).
    rewrite Qpower_opp, <- ten_inject by (unfold k; lia).
    pose proof (below_ten_pow (Z.pos (Qden x)) ltac:(lia)) as Hlt.
    fold k in Hlt.
    assert (Hk : (0 < 10 ^ k)%Z) by (apply Z.pow_pos_nonneg; unfold k; lia).
    destruct x as [n d]. cbn in *.
    destruct (10 ^ k)%Z as [| tk | tk] eqn:Htk; try lia.
    unfold Qle, Qinv, inject_Z. cbn. nia.
Qed.

Lemma py_int_floor y : 0 <= y -> py_int y = Qfloor y.
Proof.
  destruct y as [n d]. unfold Qle, py_int, Qfloor. cbn. intros H.
  apply Z.quot_div_nonneg; lia.
Qed.

Lemma Qabs_nonneg_eq x : 0 <= x -> Qabs x = x.
Proof.
  destruct x as [n d]. unfold Qle, Qabs. cbn. intros H.
  rewrite Z.abs_eq by lia. reflexivity.
Qed.

Lemma sig_digits_zero p : (0 <= p)%Z -> sig_digits p 0.
Proof.
  intros Hp. exists 0%Z, 0%Z. split; [| reflexivity].
  cbn. apply Z.pow_pos_nonneg; lia.
Qed.

(** The scaled value of a positive number lies between [10^(p-1)] and
    [10^p]. *)
Lemma scaled_range x p :
  0 < x ->
  let e := floor_log10 x in
  let f := 10 ^ (p - 1 - e) in
  0 < f /\ 10 ^ (p - 1) <= x * f /\ x * f < 10 ^ p /\
  10 ^ e * f == 10 ^ (p - 1).
Proof.
  intros Hx e f. destruct (floor_log10_spec x Hx) as [Hlo Hhi]. fold e in Hlo, Hhi.
  assert (Hf : 0 < f) by apply ten_pos.
  assert (E1 : 10 ^ e * f == 10 ^ (p - 1)).
  { unfold f. rewrite <- Qpower_plus by discriminate.
    replace (e + (p - 1 - e))%Z with (p - 1)%Z by lia. reflexivity. }
  assert (E2 : 10 ^ (e + 1) * f == 10 ^ p).
  { unfold f. rewrite <- Qpower_plus by discriminate.
    replace (e + 1 + (p - 1 - e))%Z with p by lia. reflexivity. }
  split; [exact Hf |]. split; [| split; [| exact E1]].
  - rewrite <- E1. apply Qmult_le_compat_r; [exact Hlo |].
    apply Qlt_le_weak. exact Hf.
  - rewrite <- E2. apply Qmult_lt_compat_r; assumption.
Qed.

(** [truncate_float] cuts a number that is not negative to [p] significant
    digits, toward zero. *)
Lemma truncate_float_spec x p :
  0 <= x -> (1 <= p)%Z -> truncation_of p x (truncate_float x p).
Proof.
  intros Hx Hp. unfold truncate_float.
  destruct (Qeq_bool x 0) eqn:Hz.
  { apply Qeq_bool_iff in Hz. unfold truncation_of.
    split; [apply Qle_refl |]. split; [exact Hx |].
    split; [apply sig_digits_zero; lia |].
    intros v _ Hv. rewrite Hz in Hv. exact Hv. }
  assert (Hpos : 0 < x).
  { apply Qle_lt_or_eq in Hx as [H | H]; [exact H |].
    symmetry in H. apply Qeq_bool_iff in H. congruence. }
  rewrite (Qabs_nonneg_eq x Hx).
  destruct (scaled_range x p Hpos) as (Hf & Hlo & Hhi & E1).
  set (e := floor_log10 x) in *. set (f := 10 ^ (p - 1 - e)) in *.
  assert (Hy : 0 <= x * f).
  { apply Qmult_le_0_compat; [exact Hx | apply Qlt_le_weak; exact Hf]. }
  rewrite (py_int_floor _ Hy). set (m := Qfloor (x * f)).
  pose proof (Qfloor_le (x * f)) as Hm1. fold m in Hm1.
  assert (Hmlo : (10 ^ (p - 1) <= m)%Z).
  { rewrite <- (Qfloor_Z (10 ^ (p - 1))). apply Qfloor_resp_le.
    rewrite ten_inject by lia. exact Hlo. }
  assert (Hmhi : (m < 10 ^ p)%Z).
  { rewrite Zlt_Qlt, ten_inject by lia.
    eapply Qle_lt_trans; eassumption. }
  assert (Hm0 : (0 < m)%Z).
  { pose proof (Z.pow_pos_nonneg 10 (p - 1)). lia. }
  assert (Hfinv : / f == 10 ^ (e + 1 - p)).
  { unfold f. rewrite <- Qpower_opp.
    replace (- (p - 1 - e))%Z with (e + 1 - p)%Z by lia. reflexivity. }
  assert (Ht : 10 ^ e <= inject_Z m / f).
  { apply Qle_shift_div_l; [exact Hf |]. rewrite E1, <- ten_inject by lia.
    rewrite <- Zle_Qle. exact Hmlo. }
  unfold truncation_of. split; [| split; [| split]].
  - eapply Qle_trans; [| exact Ht]. apply Qlt_le_weak, ten_pos.
  - apply Qle_shift_div_r; assumption.
  - exists m, (e + 1 - p)%Z. split; [rewrite Z.abs_eq by lia; exact Hmhi |].
    unfold Qdiv. rewrite Hfinv. reflexivity.
  - intros v (mv & k & Hmv & Hv) Hvx.
    destruct (Z_le_gt_dec 0 (k + p - 1 - e)) as [Hk | Hk].
    + apply Qle_shift_div_l; [exact Hf |].
      assert (Hvf : v * f == inject_Z (mv * 10 ^ (k + p - 1 - e))).
      { rewrite Hv, inject_Z_mult, ten_inject by lia.
        unfold f. rewrite <- Qmult_assoc, <- Qpower_plus by discriminate.
        replace (k + (p - 1 - e))%Z with (k + p - 1 - e)%Z by lia.
        reflexivity. }
      rewrite Hvf, <- Zle_Qle.
      rewrite <- (Qfloor_Z (mv * 10 ^ (k + p - 1 - e))).
      apply Qfloor_resp_le. rewrite <- Hvf.
      apply Qmult_le_compat_r; [exact Hvx | apply Qlt_le_weak; exact Hf].
    + eapply Qle_trans; [| exact Ht].
      rewrite Hv.
      assert (Hmq : inject_Z mv <= 10 ^ p).
      { rewrite <- ten_inject by lia. rewrite <- Zle_Qle. lia. }
      eapply Qle_trans.
      * apply Qmult_le_compat_r; [exact Hmq |].
        apply Qlt_le_weak, ten_pos.
      * rewrite <- Qpower_plus by discriminate. apply ten_mono. lia.
Qed.

(** ** Rounding and normalization of boxes *)

Lemma torch_round_cases x :
  let f := Qfloor x in
  (torch_round x = inject_Z f /\ x - inject_Z f <= 1 # 2 /\
   (x - inject_Z f == 1 # 2 -> Z.even f = true)) \/
  (torch_round x = inject_Z (f + 1) /\ 1 # 2 <= x - inject_Z f /\
   (x - inject_Z f == 1 # 2 -> Z.even f = false)).
Proof.
  intros f. unfold torch_round. fold f.
  destruct (Qlt_le_dec (x - inject_Z f) (1 # 2)) as [H1 | H1].
  - left. split; [reflexivity |]. split; [apply Qlt_le_weak; exact H1 |].
    intros E. rewrite E in H1. discriminate.
  - destruct (Qlt_le_dec (1 # 2) (x - inject_Z f)) as [H2 | H2].
    + right. split; [reflexivity |]. split; [exact H1 |].
      intros E. rewrite E in H2. discriminate.
    + destruct (Z.even f) eqn:He.
      * left. split; [reflexivity |]. split; [exact H2 | auto].
      * right. split; [reflexivity |]. split; [exact H1 | auto].
Qed.

(** Rounding moves a coordinate by half a pixel at most. *)
Lemma torch_round_close x : Qabs (torch_round x - x) <= 1 # 2.
Proof.
  pose proof (Qfloor_le x) as L. pose proof (Qlt_floor x) as U.
  rewrite inject_Z_plus in U. apply Qabs_Qle_condition.
  destruct (torch_round_cases x) as [(-> & A & _) | (-> & A & _)];
    rewrite ?inject_Z_plus; change (inject_Z 1) with 1 in *; split; lra.
Qed.

Lemma torch_round_mono a b : a <= b -> torch_round a <= torch_round b.
Proof.
  intros Hab. pose proof (Qfloor_resp_le _ _ Hab) as Hf.
  pose proof (Qfloor_le a) as La. pose proof (Qlt_floor a) as Ua.
  pose proof (Qfloor_le b) as Lb. pose proof (Qlt_floor b) as Ub.
  rewrite inject_Z_plus in Ua, Ub.
  destruct (torch_round_cases a) as [(-> & A1 & A2) | (-> & A1 & A2)];
    destruct (torch_round_cases b) as [(-> & B1 & B2) | (-> & B1 & B2)];
    rewrite <- Zle_Qle; try lia.
  destruct (Z.eq_dec (Qfloor a) (Qfloor b)) as [E | E]; [| lia].
  exfalso. rewrite E in *.
  assert (Ea : a - inject_Z (Qfloor b) == 1 # 2) by lra.
  assert (Eb : b - inject_Z (Qfloor b) == 1 # 2) by lra.
  specialize (A2 Ea). specialize (B2 Eb). congruence.
Qed.

Lemma torch_round_inject n : torch_round (inject_Z n) = inject_Z n.
Proof.
  destruct (torch_round_cases (inject_Z n)) as [(-> & _) | (_ & H & _)];
    rewrite Qfloor_Z in *; [reflexivity |].
  exfalso. lra.
Qed.

Lemma round_box_inside shp b : inside shp b -> inside shp (round_box b).
Proof.
  destruct b as [[[x1 y1] x2] y2]. cbn.
  intros (h & w & Hh & Hw & Ph & Pw & A1 & A2 & A3 & B1 & B2 & B3).
  assert (round0 : torch_round 0 = 0) by exact (torch_round_inject 0).
  exists h, w. repeat split; auto.
  - apply Qle_trans with (torch_round 0);
      [rewrite round0; apply Qle_refl | apply torch_round_mono; exact A1].
  - apply torch_round_mono. exact A2.
  - rewrite <- (torch_round_inject w). apply torch_round_mono. exact A3.
  - apply Qle_trans with (torch_round 0);
      [rewrite round0; apply Qle_refl | apply torch_round_mono; exact B1].
  - apply torch_round_mono. exact B2.
  - rewrite <- (torch_round_inject h). apply torch_round_mono. exact B3.
Qed.

(** A corner over the extent, and a side over the extent, are in the unit
    interval. *)
Lemma corner_unit a b w :
  0 < w -> 0 <= a -> a <= b -> b <= w ->
  unit_interval ((a + b) / 2 / w - (b - a) / w / 2) /\
  unit_interval ((b - a) / w).
Proof.
  intros Hw Ha Hab Hb.
  assert (Hne : ~ w == 0) by (intros E; rewrite E in Hw; discriminate).
  assert (E1 : (a + b) / 2 / w - (b - a) / w / 2 == a / w) by (field; exact Hne).
  unfold unit_interval. rewrite E1. repeat split.
  - apply Qle_shift_div_l; [exact Hw | lra].
  - apply Qle_shift_div_r; [exact Hw | lra].
  - apply Qle_shift_div_l; [exact Hw | lra].
  - apply Qle_shift_div_r; [exact Hw | lra].
Qed.

Lemma normalized_box_unit shp gn b :
  normalization_gain shp = inr gn ->
  inside shp b ->
  Forall unit_interval (convert_yolo_to_xywh (div_gain (xyxy2xywh b) gn)).
Proof.
  destruct b as [[[x1 y1] x2] y2]. unfold normalization_gain. cbn.
  intros Hgn (h & w & Hh & Hw & Ph & Pw & A1 & A2 & A3 & B1 & B2 & B3).
  rewrite Hh, Hw in Hgn. injection Hgn as <-. cbn.
  assert (Qw : 0 < inject_Z w) by (rewrite <- (Zlt_Qlt 0); exact Pw).
  assert (Qh : 0 < inject_Z h) by (rewrite <- (Zlt_Qlt 0); exact Ph).
  destruct (corner_unit x1 x2 (inject_Z w) Qw A1 A2 A3) as [C1 C2].
  destruct (corner_unit y1 y2 (inject_Z h) Qh B1 B2 B3) as [C3 C4].
  constructor; [exact C1 |]. constructor; [exact C3 |].
  constructor; [exact C2 |]. constructor; [exact C4 |]. constructor.
Qed.

Lemma truncation_unit p c t :
  unit_interval c -> truncation_of p c t -> unit_interval t.
Proof.
  intros [_ H1] (H2 & H3 & _). split; [exact H2 |].
  eapply Qle_trans; eassumption.
Qed.

Close Scope Q_scope.

(** ** The record and the running maximum *)

Lemma record_lookup id failure m ds :
  record id failure m ds !! "file" = Some (VStr id) /\
  record id failure m ds !! "failure" = VStr <$> failure /\
  record id failure m ds !! "max_detection_conf" = Some (VFloat m) /\
  record id failure m ds !! "detections" = Some (VList ds).
Proof.
  unfold record. destruct failure; cbn; repeat split;
    repeat (rewrite lookup_insert_eq || (rewrite lookup_insert_ne by done));
    try reflexivity; apply lookup_singleton_ne; done.
Qed.

Lemma py_max_cases a b :
  (py_max a b = a /\ (b <= a)%Q) \/ (py_max a b = b /\ (a < b)%Q).
Proof. unfold py_max. destruct (Qlt_le_dec a b); auto. Qed.

Lemma running_max_bounds cs start :
  (start <= running_max cs start)%Q /\
  Forall (fun c => (c <= running_max cs start)%Q) cs /\
  (running_max cs start = start \/
   Exists (fun c => c = running_max cs start) cs).
Proof.
  revert start. induction cs as [| c cs IH]; intros start; cbn.
  - split; [apply Qle_refl |]. split; [constructor | auto].
  - destruct (IH (py_max start c)) as (H1 & H2 & H3).
    fold (running_max cs (py_max start c)) in *.
    destruct (py_max_cases start c) as [[E Hle] | [E Hlt]]; rewrite E in *.
    + split; [exact H1 |]. split.
      * constructor; [eapply Qle_trans; eauto | exact H2].
      * destruct H3; [auto | right; apply Exists_cons_tl; assumption].
    + split; [eapply Qle_trans; [apply Qlt_le_weak; exact Hlt | exact H1] |].
      split; [constructor; assumption |].
      right. destruct H3 as [H3 | H3];
        [apply Exists_cons_hd; auto | apply Exists_cons_tl; assumption].
Qed.

(** From [0.0], over confidences that are not negative, the running
    maximum is the greatest confidence. *)
Lemma running_max_is_max ds :
  Forall (fun d => (0 <= conf d)%Q) ds ->
  is_max_conf (running_max (map conf ds) 0) ds.
Proof.
  intros Hpos. split; [intros ->; reflexivity |]. intros Hne.
  destruct (running_max_bounds (map conf ds) 0) as (H1 & H2 & H3).
  set (m := running_max (map conf ds) 0) in *.
  assert (Hall : Forall (fun d => (conf d <= m)%Q) ds).
  { apply List.Forall_forall. intros d Hd.
    rewrite List.Forall_forall in H2. apply H2. apply in_map. exact Hd. }
  split; [| exact Hall].
  destruct H3 as [H3 | H3].
  - destruct ds as [| d ds]; [congruence |].
    apply Exists_cons_hd. inversion Hpos; subst. inversion Hall; subst.
    rewrite H3 in *. apply Qle_antisym; assumption.
  - apply List.Exists_exists in H3 as (c & Hc & ->).
    apply in_map_iff in Hc as (d & Hd & Hin).
    apply List.Exists_exists. exists d. split; [exact Hin |].
    rewrite Hd. reflexivity.
Qed.

(** ** The class policy on rows *)

Lemma format_pure_inr CONF_DIGITS COORD_DIGITS use_native gn r d :
  format_pure CONF_DIGITS COORD_DIGITS use_native gn r = inr d ->
  category d = category_of use_native r /\
  conf d = truncate_float (row_conf r) CONF_DIGITS /\
  bbox d = truncate_float_array
             (convert_yolo_to_xywh (div_gain (xyxy2xywh (xyxy r)) gn))
             COORD_DIGITS /\
  (use_native = false -> recognized r).
Proof.
  unfold format_pure, class_id, category_of, recognized.
  destruct use_native; cbn [negb].
  - intros [= <-]. cbn. repeat split. discriminate.
  - destruct (existsb (Z.eqb (py_int (row_cls r) + 1)) [1; 2; 3]) eqn:Hin;
      cbn [negb]; [| discriminate].
    intros [= <-]. cbn [category conf bbox]. repeat split. intros _.
    apply existsb_exists in Hin as (c & Hc & Heq).
    apply Z.eqb_eq in Heq. rewrite Heq. exact Hc.
Qed.

Lemma format_pure_native CONF_DIGITS COORD_DIGITS gn r :
  exists d, format_pure CONF_DIGITS COORD_DIGITS true gn r = inr d.
Proof. unfold format_pure, class_id. cbn. eauto. Qed.

Lemma format_pure_inl CONF_DIGITS COORD_DIGITS use_native gn r e :
  format_pure CONF_DIGITS COORD_DIGITS use_native gn r = inl e ->
  use_native = false /\ ~ recognized r /\ e = KeyError (py_int (row_cls r) + 1).
Proof.
  unfold format_pure, class_id, recognized.
  destruct use_native; cbn [negb]; [discriminate |].
  destruct (existsb (Z.eqb (py_int (row_cls r) + 1)) [1; 2; 3]) eqn:Hin;
    cbn [negb]; [discriminate |].
  intros [= <-]. repeat split. intros Hc.
  assert (Ht : existsb (Z.eqb (py_int (row_cls r) + 1)) [1; 2; 3] = true).
  { apply existsb_exists. exists (py_int (row_cls r) + 1).
    split; [exact Hc | apply Z.eqb_refl]. }
  congruence.
Qed.

Lemma formatted_rows CONF_DIGITS COORD_DIGITS use_native gn rows ds :
  Forall2 (fun r d =>
    format_pure CONF_DIGITS COORD_DIGITS use_native gn r = inr d) rows ds ->
  map category ds = map (category_of use_native) rows /\
  map conf ds = map (fun r => truncate_float (row_conf r) CONF_DIGITS) rows /\
  (use_native = false -> Forall recognized rows).
Proof.
  induction 1 as [| r d rows ds Hrd _ IH]; cbn.
  - repeat split. constructor.
  - destruct IH as (IH1 & IH2 & IH3).
    destruct (format_pure_inr _ _ _ _ _ _ Hrd) as (H1 & H2 & _ & H4).
    rewrite H1, H2, IH1, IH2. repeat split. intros Hn. constructor; auto.
Qed.

Lemma category_of_by_class use_native rows rows' :
  map row_cls rows = map row_cls rows' ->
  map (category_of use_native) rows = map (category_of use_native) rows'.
Proof.
  intros H.
  assert (G : forall l, map (category_of use_native) l
    = map (fun c => py_str (if use_native then py_int c else py_int c + 1))
        (map row_cls l)).
  { intros l. rewrite map_map. reflexivity. }
  rewrite (G rows), (G rows'), H. reflexivity.
Qed.

Lemma recognized_by_class rows rows' :
  map row_cls rows = map row_cls rows' ->
  Forall recognized rows -> Forall recognized rows'.
Proof.
  intros H.
  assert (G : forall l, Forall recognized l <->
                        Forall (fun c => In (py_int c + 1) [1; 2; 3])
                          (map row_cls l)).
  { intros l. rewrite List.Forall_map. reflexivity. }
  rewrite (G rows), (G rows'), H. auto.
Qed.

Lemma check_image_size_valid sz :
  check_image_size sz = inr tt <-> valid_image_size sz.
Proof.
  unfold valid_image_size. split.
  - destruct sz as [n | dims | x]; cbn; [eauto | | discriminate].
    destruct dims as [| h [| w [| ? ?]]]; cbn; try discriminate. eauto.
  - intros [[n ->] | (h & w & ->)]; reflexivity.
Qed.

Lemma check_image_size_error sz e :
  check_image_size sz = inl e -> e = AssertionError \/ e = TypeError.
Proof.
  destruct sz as [n | dims | x]; cbn; [discriminate | | intros [= <-]; auto].
  destruct (length dims =? 2)%nat; [discriminate | intros [= <-]; auto].
Qed.


Section Boundary.

Variables CONF_DIGITS COORD_DIGITS : Z.
Variable FAILURE_INFER : string.
Variable rt : runtime.
Variable self : PTDetector.

Let run := generate_detections_one_image CONF_DIGITS COORD_DIGITS
             FAILURE_INFER rt self.
Let body := try_block CONF_DIGITS COORD_DIGITS rt self.

(** C1, as the code has it.  The handler hands the exception to
    [traceback.print_exc] as its [limit]; with the [print_exc] of CPython
    the call then raises [TypeError] whenever a stage has raised: the
    caller receives an exception and no record. *)
Theorem C1_exception_escapes_the_boundary img id thr size e s1 :
  traceback_print_exc rt = cpython_print_exc ->
  body img thr size (entry self id) = (inl e, s1) ->
  outcome (run img id thr size) = inl TypeError.
Proof.
  intros Htb Hrun. unfold run.
  rewrite (generate_run _ _ _ _ _ _ _ _ _ _ _ Hrun), Htb. reflexivity.
Qed.


(** C3, amended.  An [image_size] that is neither an int nor of length
    two is refused inside the body of [try], after the image was
    converted and before anything else is done; the handler catches the
    exception and marks the record, the flag is left as it was, and the
    caller receives the failure record, without detections, unless
    [print_exc] raises in the handler. *)
Theorem C3_size_error_is_caught img id thr sz arr :
  np_asarray rt img = inr arr ->
  ~ valid_image_size sz ->
  exists e r,
    check_image_size sz = inl e /\
    (e = AssertionError \/ e = TypeError) /\
    events (run img id thr (Some sz))
      = [Call "np.asarray"; Print_failure id e; Call "traceback.print_exc"] /\
    printed_image_size_warning (detector_after (run img id thr (Some sz)))
      = printed_image_size_warning self /\
    r !! "file" = Some (VStr id) /\
    r !! "failure" = Some (VStr FAILURE_INFER) /\
    r !! "detections" = Some (VList []) /\
    r !! "max_detection_conf" = Some (VFloat 0) /\
    outcome (run img id thr (Some sz))
      = match traceback_print_exc rt (PyExc e) with
        | inl e' => inl e'
        | inr _ => inr r
        end.
Proof.
  intros Hnp Hinv.
  destruct (check_image_size sz) as [e | []] eqn:Hck;
    [| exfalso; apply Hinv, check_image_size_valid; exact Hck].
  exists e, (record id (Some FAILURE_INFER) 0 []).
  split; [reflexivity |].
  split; [exact (check_image_size_error _ _ Hck) |].
  destruct (body img thr (Some sz) (entry self id)) as [res s1] eqn:Hrun.
  destruct (try_block_run _ _ _ _ _ _ _ _ _ _ Hrun)
    as (_ & (ds & Hd & Hm & Hsurv) & evs & Htr & Hflag).
  unfold survivors, staged in Hsurv. rewrite Hnp, Hck in Hsurv, Hflag.
  destruct Hsurv as [-> ->]. destruct Hflag as [Hw ->].
  cbn in Hd, Hm, Htr, Hw. unfold run.
  rewrite (generate_run _ _ _ _ _ _ _ _ _ _ _ Hrun). cbn zeta.
  destruct (record_lookup id (Some FAILURE_INFER) 0 []) as (L1 & L2 & L3 & L4).
  destruct (traceback_print_exc rt (PyExc e)) as [e' | []];
    unfold events, detector_after, outcome; cbn; rewrite Htr, Hw, ?Hd, ?Hm;
    auto 10.
Qed.

(** Every record that is returned, marked or not, holds the detections
    and the running maximum of the frame in which the body of [try]
    ended. *)
Lemma returned_record img id thr size r :
  outcome (run img id thr size) = inr r ->
  exists res s1 failure,
    body img thr size (entry self id) = (res, s1) /\
    r = record id failure (running_max (map conf (detections s1)) 0)
          (detections s1) /\
    match res with
    | inr _ => failure = None
    | inl e => failure = Some FAILURE_INFER /\
               traceback_print_exc rt (PyExc e) = inr tt
    end.
Proof.
  destruct (body img thr size (entry self id)) as [res s1] eqn:Hrun.
  destruct (try_block_run _ _ _ _ _ _ _ _ _ _ Hrun)
    as (_ & (ds & Hd & Hm & _) & _).
  cbn in Hd, Hm. subst ds. unfold run.
  rewrite (generate_run _ _ _ _ _ _ _ _ _ _ _ Hrun).
  destruct res as [e | []]; cbn zeta.
  - destruct (traceback_print_exc rt (PyExc e)) as [e' | []] eqn:Htb;
      unfold outcome; cbn; intros [= <-].
    exists (inl e), s1, (Some FAILURE_INFER). rewrite Hm. auto.
  - unfold outcome; cbn; intros [= <-].
    exists (inr tt), s1, None. rewrite Hm. auto.
Qed.

(** What the handler is written for: with a [print_exc] that returns,
    every call returns a record with the identifier, the greatest
    confidence and the detections, and with the failure marker exactly
    when a stage raised. *)
Lemma record_when_print_exc_returns img id thr size :
  (forall e, traceback_print_exc rt (PyExc e) = inr tt) ->
  exists r,
    outcome (run img id thr size) = inr r /\
    r !! "file" = Some (VStr id) /\
    is_Some (r !! "max_detection_conf") /\
    is_Some (r !! "detections") /\
    (is_Some (r !! "failure") <->
     exists e s1, body img thr size (entry self id) = (inl e, s1)).
Proof.
  intros Htb.
  destruct (body img thr size (entry self id)) as [res s1] eqn:Hrun.
  unfold run. rewrite (generate_run _ _ _ _ _ _ _ _ _ _ _ Hrun).
  destruct res as [e | u]; cbn zeta; [rewrite Htb |];
    unfold outcome; cbn [fst]; eexists; (split; [reflexivity |]);
    match goal with
    | |- context [record ?i ?fl ?m ?ds] =>
        destruct (record_lookup i fl m ds) as (L1 & L2 & L3 & L4)
    end;
    rewrite L1, L2, L3, L4; cbn;
    (split; [reflexivity |]); (split; [eauto |]); (split; [eauto |]).
  - split; [intros _; eauto | eauto].
  - split; [intros [x Hx]; discriminate | intros (e & s2 & H); discriminate].
Qed.

(** C4.  In every record that is returned, [max_detection_conf] is the
    greatest [conf] of the detections, and [0.0] when there are none;
    confidences are not negative. *)
Theorem C4_max_detection_conf img id thr size r ds :
  outcome (run img id thr size) = inr r ->
  r !! "detections" = Some (VList ds) ->
  Forall (fun d => (0 <= conf d)%Q) ds ->
  exists m,
    r !! "max_detection_conf" = Some (VFloat m) /\ is_max_conf m ds.
Proof.
  intros Hout Hds Hpos.
  destruct (returned_record _ _ _ _ _ Hout) as (res & s1 & f & _ & -> & _).
  destruct (record_lookup id f (running_max (map conf (detections s1)) 0)
              (detections s1)) as (_ & _ & L3 & L4).
  rewrite L4 in Hds. injection Hds as <-.
  exists (running_max (map conf (detections s1)) 0).
  split; [exact L3 |]. apply running_max_is_max. exact Hpos.
Qed.

(** A record without the failure marker: the body of [try] ended
    normally, every row that survived was formatted, in reverse order
    within its batch. *)
Lemma success_record img id thr size arr t batches r :
  survivors rt self img thr size = inr (arr, t, batches) ->
  outcome (run img id thr size) = inr r ->
  succeeded r ->
  exists gn rows ds,
    normalization_gain (shape arr) = inr gn /\
    r = record id None (running_max (map conf ds) 0) ds /\
    Forall2 (fun r d =>
      format_pure CONF_DIGITS COORD_DIGITS
        (use_model_native_classes self) gn r = inr d) rows ds /\
    Forall (came_from rt t arr batches) rows /\
    map row_conf rows = map row_conf (concat (map (@rev row) batches)) /\
    map row_cls rows = map row_cls (concat (map (@rev row) batches)).
Proof.
  intros Hsurv Hout Hok.
  destruct (returned_record _ _ _ _ _ Hout) as (res & s1 & f & Hrun & -> & Hres).
  unfold succeeded in Hok.
  rewrite (proj1 (proj2 (record_lookup _ _ _ _))) in Hok.
  destruct f; [discriminate |].
  destruct res as [e | u]; [destruct Hres; discriminate |].
  destruct (try_block_run _ _ _ _ _ _ _ _ _ _ Hrun)
    as (_ & (ds & Hd & _ & Hs) & _).
  rewrite Hsurv in Hs. cbn in Hd. subst ds.
  destruct (normalization_gain (shape arr)) as [e | gn];
    [destruct Hs; discriminate |].
  destruct Hs as (rows & H1 & H2 & _ & H3). destruct (H3 u eq_refl) as [H4 H5].
  exists gn, rows, (detections s1). auto 10.
Qed.


(** The detections of a record are never more than the rows that
    survived; they are as many when the failure marker is absent, and
    none when a stage before the loop raised. *)
Lemma detection_count img id thr size r ds :
  outcome (run img id thr size) = inr r ->
  r !! "detections" = Some (VList ds) ->
  match survivors rt self img thr size with
  | inl _ => ds = []
  | inr (_, _, batches) =>
      (length ds <= length (concat batches))%nat /\
      (succeeded r -> length ds = length (concat batches))
  end.
Proof.
  intros Hout Hds.
  destruct (returned_record _ _ _ _ _ Hout) as (res & s1 & f & Hrun & Hr & Hres).
  assert (Hds' : ds = detections s1).
  { rewrite Hr in Hds.
    rewrite (proj2 (proj2 (proj2 (record_lookup _ _ _ _)))) in Hds.
    congruence. }
  destruct (try_block_run _ _ _ _ _ _ _ _ _ _ Hrun)
    as (_ & (ds0 & Hd & _ & Hs) & _).
  cbn in Hd. rewrite <- Hds' in Hd. subst ds0.
  destruct (survivors rt self img thr size) as [e | [[arr t] batches]];
    [tauto |].
  destruct (normalization_gain (shape arr)) as [e | gn].
  - destruct Hs as [-> ->]. split; [cbn; lia |]. intros Hok.
    destruct Hres as [-> _]. rewrite Hr in Hok. unfold succeeded in Hok.
    rewrite (proj1 (proj2 (record_lookup _ _ _ _))) in Hok. discriminate.
  - destruct Hs as (rows & HF & _ & Hle & Hdone).
    pose proof (Forall2_length _ _ _ HF) as Hlen.
    split; [lia |]. intros Hok.
    destruct res as [e | u].
    + destruct Hres as [-> _]. rewrite Hr in Hok. unfold succeeded in Hok.
      rewrite (proj1 (proj2 (record_lookup _ _ _ _))) in Hok. discriminate.
    + destruct (Hdone u eq_refl) as [Hc _].
      apply (f_equal (@length Q)) in Hc.
      rewrite !length_map, length_concat_rev in Hc. lia.
Qed.


(** The flag and the size warnings of a call are those of the body of
    [try]: the handler and the lines after it leave the flag alone and
    print no size warning. *)
Lemma flag_and_warnings img id thr size res s1 :
  body img thr size (entry self id) = (res, s1) ->
  printed_image_size_warning (detector_after (run img id thr size))
    = warned s1 /\
  size_warnings (events (run img id thr size)) = size_warnings (trace s1).
Proof.
  intros Hrun. unfold run.
  rewrite (generate_run _ _ _ _ _ _ _ _ _ _ _ Hrun).
  destruct res as [e | u]; cbn zeta;
    [destruct (traceback_print_exc rt (PyExc e)) |];
    unfold detector_after, events; cbn;
    rewrite ?size_warnings_app; cbn; rewrite ?app_nil_r; auto.
Qed.

(** C8, amended.  In a call whose image is converted and whose size, if
    one is given, is accepted: a non-default size sets the flag, and
    prints the warning exactly when the flag was not set; the default
    size clears the flag and prints no warning.  In a call that fails
    before, the flag stays as it was and no warning is printed. *)
Theorem C8_size_warning_state img id thr size :
  let flag := printed_image_size_warning self in
  let flag' :=
    printed_image_size_warning (detector_after (run img id thr size)) in
  let warnings := size_warnings (events (run img id thr size)) in
  match np_asarray rt img, size with
  | inl _, _ => flag' = flag /\ warnings = []
  | inr _, None => flag' = false /\ warnings = []
  | inr _, Some sz =>
      match check_image_size sz with
      | inl _ => flag' = flag /\ warnings = []
      | inr _ =>
          flag' = true /\
          warnings = if flag then [] else [Print_size_warning sz]
      end
  end.
Proof.
  cbn zeta.
  destruct (body img thr size (entry self id)) as [res s1] eqn:Hrun.
  destruct (flag_and_warnings _ _ _ _ _ _ Hrun) as [-> ->].
  destruct (try_block_run _ _ _ _ _ _ _ _ _ _ Hrun)
    as (_ & _ & evs & Htr & Hflag).
  cbn in Htr. rewrite Htr. cbn. fold (size_warnings evs).
  destruct (np_asarray rt img) as [e | arr].
  { destruct Hflag as [-> ->]. auto. }
  destruct size as [sz |].
  - destruct (check_image_size sz); destruct Hflag as [-> ->]; cbn; auto.
    destruct (printed_image_size_warning self); auto.
  - destruct Hflag as [-> ->]. auto.
Qed.

End Boundary.

Lemma C1_exception_escapes_the_boundary_witness :
  outcome (bench_call cpython_print_exc (bench_detector [stranger] false)
             1%N (1 # 10) None) = inl TypeError.
Proof.
  eapply (C1_exception_escapes_the_boundary 3 4 "Failure inference"
            (bench_runtime cpython_print_exc) (bench_detector [stranger] false)
            1%N "a.jpg" (1 # 10)%Q None).
  - reflexivity.
  - vm_compute. reflexivity.
Defined.



Lemma C3_size_error_is_caught_witness :
  exists e,
    check_image_size (SizeSeq [640; 640; 3]) = inl e /\
    events (bench_call quiet_print_exc (bench_detector [animal] false)
              1%N (1 # 2) (Some (SizeSeq [640; 640; 3])))
      = [Call "np.asarray"; Print_failure "a.jpg" e;
         Call "traceback.print_exc"].
Proof.
  edestruct (C3_size_error_is_caught 3 4 "Failure inference"
               (bench_runtime quiet_print_exc) (bench_detector [animal] false)
               1%N "a.jpg" (1 # 2)%Q (SizeSeq [640; 640; 3]))
    as (e & r & H1 & _ & H2 & _).
  - reflexivity.
  - intros [[n Hn] | (h & w & Hhw)]; discriminate.
  - exists e. auto.
Defined.

(** C3 fails as stated.  A size of length three: the image is converted
    first, the assertion fails inside [try], the handler runs and marks the
    record; what the caller receives is the failure record when [print_exc]
    returns and the [TypeError] of the handler with CPython, not the
    assertion error. *)
Lemma C3_counterexample :
  events (bench_call cpython_print_exc (bench_detector [animal] false)
            1%N (1 # 2) (Some (SizeSeq [640; 640; 3])))
    = [Call "np.asarray"; Print_failure "a.jpg" AssertionError;
       Call "traceback.print_exc"] /\
  outcome (bench_call cpython_print_exc (bench_detector [animal] false)
             1%N (1 # 2) (Some (SizeSeq [640; 640; 3])))
    = inl TypeError /\
  exists r,
    outcome (bench_call quiet_print_exc (bench_detector [animal] false)
               1%N (1 # 2) (Some (SizeSeq [640; 640; 3])))
      = inr r /\
    r !! "failure" = Some (VStr "Failure inference").
Proof.
  split; [vm_compute; reflexivity |]. split; [vm_compute; reflexivity |].
  exists (record "a.jpg" (Some "Failure inference") 0 []).
  split; [vm_compute; reflexivity |].
  apply (record_lookup "a.jpg" (Some "Failure inference") 0 []).
Qed.

Lemma C4_max_detection_conf_witness :
  exists r m,
    outcome (bench_call cpython_print_exc
               (bench_detector [person; animal; stranger] true)
               1%N (1 # 2) None) = inr r /\
    r !! "detections"
      = Some (VList [animal_detection true; person_detection true]) /\
    r !! "max_detection_conf" = Some (VFloat m) /\
    is_max_conf m [animal_detection true; person_detection true].
Proof.
  assert (Hout : outcome (generate_detections_one_image 3 4 "Failure inference"
                   (bench_runtime cpython_print_exc)
                   (bench_detector [person; animal; stranger] true)
                   1%N "a.jpg" (1 # 2)%Q None)
                 = inr (record "a.jpg" None 0.900
                          [animal_detection true; person_detection true]))
    by (vm_compute; reflexivity).
  assert (Hpos : Forall (fun d => (0 <= conf d)%Q)
                   [animal_detection true; person_detection true]).
  { constructor; [cbn; discriminate |].
    constructor; [cbn; discriminate | constructor]. }
  destruct (C4_max_detection_conf _ _ _ _ _ _ _ _ _ _ _ Hout
              (proj2 (proj2 (proj2 (record_lookup _ _ _ _)))) Hpos)
    as (m & Hm & Hmax).
  eexists; exists m. split; [exact Hout |].
  split; [exact (proj2 (proj2 (proj2 (record_lookup _ _ _ _)))) |].
  split; [exact Hm | exact Hmax].
Defined.


(** ** The bench keeps the contract of the suppression *)

Lemma bench_nms_above print_exc : nms_above_threshold (bench_runtime print_exc).
Proof.
  intros p thr batches [= <-]. cbn [concat]. rewrite app_nil_r.
  apply List.Forall_forall. intros r Hr.
  apply List.filter_In in Hr as [_ Hr].
  apply negb_true_iff in Hr. apply Qnot_le_lt. intros Hle.
  apply Qle_bool_iff in Hle. congruence.
Qed.

Lemma bench_nms_antitone print_exc : nms_antitone (bench_runtime print_exc).
Proof.
  intros p thr1 thr2 bs1 bs2 Hle [= <-] [= <-]. cbn [concat].
  rewrite !app_nil_r. induction p as [| r p IH]; cbn; [lia |].
  destruct (Qle_bool (row_conf r) thr2) eqn:H2; cbn [negb];
    destruct (Qle_bool (row_conf r) thr1) eqn:H1; cbn [negb length]; try lia.
  exfalso. apply Qle_bool_iff in H1.
  assert (Hc : Qle_bool (row_conf r) thr2 = true)
    by (apply Qle_bool_iff; eapply Qle_trans; eassumption).
  congruence.
Qed.

Lemma bench_scores print_exc p use_native :
  Forall (fun r => (row_conf r <= 1)%Q) p ->
  scores_at_most_one (bench_runtime print_exc) (bench_detector p use_native).
Proof.
  intros Hp x p0 thr batches [= <-] [= <-]. cbn [concat]. rewrite app_nil_r.
  rewrite List.Forall_forall in *. intros r Hr.
  apply List.filter_In in Hr as [Hr _]. auto.
Qed.



Lemma C8_size_warning_state_witness :
  printed_image_size_warning
    (detector_after (bench_call cpython_print_exc (bench_detector [animal] false)
                       1%N (1 # 2) (Some (SizeInt 640)))) = true /\
  size_warnings
    (events (bench_call cpython_print_exc (bench_detector [animal] false)
               1%N (1 # 2) (Some (SizeInt 640))))
    = [Print_size_warning (SizeInt 640)].
Proof.
  exact (C8_size_warning_state 3 4 "Failure inference"
           (bench_runtime cpython_print_exc) (bench_detector [animal] false)
           1%N "a.jpg" (1 # 2)%Q (Some (SizeInt 640))).
Defined.

(** C8 fails as stated.  An image that cannot be converted: the call with
    the default size leaves the flag set, and the first call with a
    non-default size prints no warning and does not set the flag. *)
Lemma C8_counterexample :
  printed_image_size_warning
    (detector_after
       (bench_call cpython_print_exc
          (with_flag (bench_detector [animal] false) true)
          0%N (1 # 2) None)) = true /\
  printed_image_size_warning
    (detector_after
       (bench_call cpython_print_exc (bench_detector [animal] false)
          0%N (1 # 2) (Some (SizeInt 640)))) = false /\
  size_warnings
    (events
       (bench_call cpython_print_exc (bench_detector [animal] false)
          0%N (1 # 2) (Some (SizeInt 640)))) = [].
Proof. repeat split; vm_compute; reflexivity. Qed.

(** ** The numbers of a detection *)

Lemma survivors_inv rt self img thr size arr t batches :
  survivors rt self img thr size = inr (arr, t, batches) ->
  exists x p,
    model self x = inr p /\ non_max_suppression rt p thr = inr batches.
Proof.
  unfold survivors. destruct (staged rt self img size) as [e | [[arr' t'] p]] eqn:Hst;
    [discriminate |].
  destruct (non_max_suppression rt p thr) as [e | bs] eqn:Hn; [discriminate |].
  intros [= <- <- <-]. unfold staged in Hst.
  repeat stage_in Hst; try discriminate; injection Hst as <- <- <-; eauto.
Qed.

Section Numbers.

Variables CONF_DIGITS COORD_DIGITS : Z.
Variable FAILURE_INFER : string.
Variable rt : runtime.
Variable self : PTDetector.

Hypothesis Hconf_digits : (1 <= CONF_DIGITS)%Z.
Hypothesis Hcoord_digits : (1 <= COORD_DIGITS)%Z.
Hypothesis Hrows : candidates_well_formed rt self.
Hypothesis Hclip : boxes_clipped rt.

(** A row that stems from the survivors is formatted into a detection
    whose numbers are those of the row, cut. *)
Lemma row_cut img thr size arr t batches gn r' d :
  survivors rt self img thr size = inr (arr, t, batches) ->
  normalization_gain (shape arr) = inr gn ->
  came_from rt t arr batches r' ->
  format_pure CONF_DIGITS COORD_DIGITS (use_model_native_classes self)
    gn r' = inr d ->
  cut_from CONF_DIGITS COORD_DIGITS gn r' d.
Proof.
  intros Hsurv Hgn (det & r & scaled & b & Hdet & Hr & Hsc & Hb & ->) Hfmt.
  destruct (survivors_inv _ _ _ _ _ _ _ _ Hsurv) as (x & p & Hx & Hn).
  pose proof (Hrows x p thr batches Hx Hn) as Hwf.
  rewrite List.Forall_forall in Hwf.
  assert (Hdet_in : forall r0, In r0 det -> In r0 (concat batches)).
  { intros r0 H0. apply in_concat. exists det. auto. }
  destruct (format_pure_inr _ _ _ _ _ _ Hfmt) as (_ & Hc & Hbb & _).
  cbn [with_box row_conf xyxy] in Hc, Hbb.
  destruct (Hwf r (Hdet_in r Hr)) as [Hunit _].
  pose proof (truncate_float_spec (row_conf r) CONF_DIGITS
                (proj1 Hunit) Hconf_digits) as Htr.
  rewrite <- Hc in Htr.
  assert (Hord : Forall ordered (map xyxy det)).
  { apply List.Forall_forall. intros b0 Hb0.
    apply in_map_iff in Hb0 as (r0 & <- & H0).
    exact (proj2 (Hwf r0 (Hdet_in r0 H0))). }
  pose proof (Hclip _ _ _ _ Hord Hsc) as Hins.
  rewrite List.Forall_forall in Hins.
  pose proof (normalized_box_unit _ _ _ Hgn
                (round_box_inside _ _ (Hins b Hb))) as Hbox.
  unfold cut_from. cbn [with_box row_conf].
  split; [exact Hunit |].
  split; [exact (truncation_unit _ _ _ Hunit Htr) |].
  split; [exact Htr |].
  rewrite Hbb. clear Hbb. unfold api_box, truncate_float_array.
  cbn [with_box xyxy].
  induction Hbox as [| y ys Hy _ IH]; [constructor |].
  cbn [map]. constructor; [| exact IH].
  pose proof (truncate_float_spec y COORD_DIGITS (proj1 Hy) Hcoord_digits)
    as Hty.
  split; [exact Hy |].
  split; [exact (truncation_unit _ _ _ Hy Hty) | exact Hty].
Qed.


End Numbers.

(** ** The bench keeps the contract of the numbers *)

Lemma clamp_range hi x : (0 <= hi)%Q -> (0 <= clamp hi x)%Q /\ (clamp hi x <= hi)%Q.
Proof.
  intros Hhi. unfold clamp.
  destruct (Qlt_le_dec x 0); [split; [apply Qle_refl | exact Hhi] |].
  destruct (Qlt_le_dec hi x); split; auto using Qle_refl.
Qed.

Lemma clamp_mono hi a b :
  (0 <= hi)%Q -> (a <= b)%Q -> (clamp hi a <= clamp hi b)%Q.
Proof.
  intros Hhi Hab. unfold clamp.
  destruct (Qlt_le_dec a 0), (Qlt_le_dec b 0), (Qlt_le_dec hi a),
    (Qlt_le_dec hi b); lra.
Qed.

Lemma bench_boxes_clipped print_exc : boxes_clipped (bench_runtime print_exc).
Proof.
  intros shp1 boxes shp0 scaled Hord. cbn.
  destruct shp0 as [| h [| w rest]]; try discriminate.
  destruct ((0 <? h) && (0 <? w)) eqn:Hpos; [| discriminate].
  apply andb_true_iff in Hpos as [Ph Pw].
  apply Z.ltb_lt in Ph, Pw. intros [= <-].
  apply List.Forall_map. eapply Forall_impl; [exact Hord |].
  intros [[[x1 y1] x2] y2] [Hx Hy]. cbn.
  assert (Qw : (0 <= inject_Z w)%Q) by (rewrite <- (Zle_Qle 0); lia).
  assert (Qh : (0 <= inject_Z h)%Q) by (rewrite <- (Zle_Qle 0); lia).
  exists h, w. repeat split; auto;
    try apply clamp_range; try apply clamp_mono; assumption.
Qed.

Lemma bench_candidates print_exc p use_native :
  Forall (fun r => unit_interval (row_conf r) /\ ordered (xyxy r)) p ->
  candidates_well_formed (bench_runtime print_exc) (bench_detector p use_native).
Proof.
  intros Hp x p0 thr batches [= <-] [= <-]. cbn [concat]. rewrite app_nil_r.
  rewrite List.Forall_forall in *. intros r Hr.
  apply List.filter_In in Hr as [Hr _]. auto.
Qed.


(** ** Passthrough of the native classes *)

Section Passthrough.

Variables CONF_DIGITS COORD_DIGITS : Z.
Variable FAILURE_INFER : string.
Variable rt : runtime.
Variable self : PTDetector.
Variable f : Q -> Q.
Hypothesis Hnative : use_model_native_classes self = true.

Lemma alike_refl s : alike s s.
Proof.
  unfold alike. repeat split.
  induction (detections s); constructor; auto. split; reflexivity.
Qed.

Lemma alike_emit evs s s' : alike s s' -> alike (emit evs s) (emit evs s').
Proof.
  intros (H1 & H2 & H3 & H4 & H5). unfold alike. cbn.
  rewrite H1, H2, H3, H4. auto.
Qed.

(** With passthrough a row is always formatted, whatever its class. *)
Lemma format_row_native gn r s :
  exists d,
    format_row CONF_DIGITS COORD_DIGITS self gn r s = (inr tt, push d s) /\
    category d = py_str (py_int (row_cls r)) /\
    conf d = truncate_float (row_conf r) CONF_DIGITS /\
    bbox d = truncate_float_array
               (convert_yolo_to_xywh (div_gain (xyxy2xywh (xyxy r)) gn))
               COORD_DIGITS.
Proof.
  rewrite format_row_run, Hnative.
  unfold format_pure, class_id. cbn. eexists. repeat split.
Qed.

Lemma rows_alike gn rows s s' :
  alike s s' ->
  exists s1 s1',
    for_each rows (format_row CONF_DIGITS COORD_DIGITS self gn) s
      = (inr tt, s1) /\
    for_each (map (with_cls f) rows)
      (format_row CONF_DIGITS COORD_DIGITS self gn) s' = (inr tt, s1') /\
    alike s1 s1'.
Proof.
  revert s s'. induction rows as [| r rows IH]; intros s s' Hs; cbn.
  - exists s, s'. auto.
  - destruct (format_row_native gn r s) as (d & Hd & _ & Hc & Hb).
    destruct (format_row_native gn (with_cls f r) s') as (d' & Hd' & _ & Hc' & Hb').
    unfold bind. rewrite Hd, Hd'.
    cbn [with_cls row_conf xyxy] in Hc', Hb'.
    apply IH. destruct Hs as (H1 & H2 & H3 & H4 & H5).
    unfold alike, push. cbn [warned result detections max_conf trace].
    rewrite H1, H2, H3, H4, Hc, Hc'. cbn [with_cls row_conf].
    repeat split. apply Forall2_app; [exact H5 |].
    constructor; [| constructor]. split; [congruence |].
    rewrite Hb, Hb'. reflexivity.
Qed.

Lemma zip_with_cls det boxes :
  zip_with with_box (map (with_cls f) det) boxes
  = map (with_cls f) (zip_with with_box det boxes).
Proof.
  revert boxes. induction det as [| r det IH]; intros [| b boxes]; cbn;
    try reflexivity. rewrite IH. reflexivity.
Qed.

Lemma batch_alike t arr gn det s s' :
  alike s s' ->
  exists res s1 s1',
    format_batch CONF_DIGITS COORD_DIGITS rt self t arr gn det s
      = (res, s1) /\
    format_batch CONF_DIGITS COORD_DIGITS (relabel f rt) self t arr gn
      (map (with_cls f) det) s' = (res, s1') /\
    alike s1 s1'.
Proof.
  intros Hs. unfold format_batch. rewrite length_map.
  destruct (0 <? length det)%nat; [| exists (inr tt), s, s'; auto].
  rewrite map_map. cbn [with_cls xyxy relabel scale_coords].
  replace (map (fun x => xyxy x) det) with (map xyxy det) by reflexivity.
  unfold call, bind, log, lift.
  fold (emit [Call "scale_coords"] s). fold (emit [Call "scale_coords"] s').
  pose proof (alike_emit [Call "scale_coords"] s s' Hs) as He.
  destruct (scale_coords rt _ _ _) as [e | scaled];
    [exists (inl e); eauto |].
  unfold assign_boxes. rewrite !length_map.
  destruct (length scaled =? length det)%nat;
    [| exists (inl RuntimeError); eauto].
  rewrite zip_with_cls, <- map_rev.
  destruct (rows_alike gn (rev (zip_with with_box det (map round_box scaled)))
              _ _ He) as (s1 & s1' & H1 & H2 & H3).
  exists (inr tt), s1, s1'. auto.
Qed.

Lemma batches_alike t arr gn batches s s' :
  alike s s' ->
  exists res s1 s1',
    for_each batches
      (format_batch CONF_DIGITS COORD_DIGITS rt self t arr gn) s
      = (res, s1) /\
    for_each (map (map (with_cls f)) batches)
      (format_batch CONF_DIGITS COORD_DIGITS (relabel f rt) self t arr gn) s'
      = (res, s1') /\
    alike s1 s1'.
Proof.
  revert s s'. induction batches as [| det batches IH]; intros s s' Hs; cbn.
  - exists (inr tt), s, s'. auto.
  - destruct (batch_alike t arr gn det s s' Hs)
      as (res & s1 & s1' & H1 & H2 & H3).
    unfold bind. rewrite H1, H2.
    destruct res as [e | u]; [exists (inl e), s1, s1'; auto |].
    apply IH. exact H3.
Qed.

Lemma preprocess_alike img thr size s :
  match preprocess_and_infer rt self img thr size s with
  | (inl e, s1) =>
      preprocess_and_infer (relabel f rt) self img thr size s = (inl e, s1)
  | (inr (arr, t, batches, gn), s1) =>
      preprocess_and_infer (relabel f rt) self img thr size s
      = (inr (arr, t, map (map (with_cls f)) batches, gn), s1)
  end.
Proof.
  unfold preprocess_and_infer, choose_target_size, call, bind, log, lift,
    ret, get_warned, set_warned.
  cbn [relabel np_asarray letterbox to_batch non_max_suppression].
  destruct size as [sz |]; repeat stage; reflexivity.
Qed.

Lemma try_block_alike img thr size s :
  exists res s1 s1',
    try_block CONF_DIGITS COORD_DIGITS rt self img thr size s = (res, s1) /\
    try_block CONF_DIGITS COORD_DIGITS (relabel f rt) self img thr size s
      = (res, s1') /\
    alike s1 s1'.
Proof.
  unfold try_block, bind.
  pose proof (preprocess_alike img thr size s) as Hp.
  destruct (preprocess_and_infer rt self img thr size s)
    as [[e | [[[arr t] batches] gn]] s1]; rewrite Hp.
  - exists (inl e), s1, s1. auto using alike_refl.
  - apply batches_alike. apply alike_refl.
Qed.

End Passthrough.

Section Independence.

Variables CONF_DIGITS COORD_DIGITS : Z.
Variable FAILURE_INFER : string.
Variable rt : runtime.
Variable self : PTDetector.

(** C10.  With passthrough no class index is checked.  A call whose
    stages up to suppression return, whose image array has two
    dimensions and whose batches are rescaled, returns the record without
    failure marker that holds, in the order of the loop, one detection
    for each row that suppression returned, and the category of each is
    the class index of its row as a string, whatever the index is.  A
    call that fails does so with the exception of a stage before the
    loop or of the rescaling of a batch, never with one of a class index.
    And with the class indices that suppression returns replaced by any
    others, the call runs through the same events and raises the same
    exception or returns the same record up to the categories. *)
Theorem C10_native_classes_never_fail img id thr size :
  use_model_native_classes self = true ->
  (forall arr t batches gn rows_all,
     survivors rt self img thr size = inr (arr, t, batches) ->
     normalization_gain (shape arr) = inr gn ->
     Forall2 (fun det rows => visited rt t arr det = inr rows)
       batches rows_all ->
     exists ds,
       outcome (generate_detections_one_image CONF_DIGITS COORD_DIGITS
                  FAILURE_INFER rt self img id thr size)
         = inr (record id None (running_max (map conf ds) 0) ds) /\
       Forall2 (fun x d =>
         format_pure CONF_DIGITS COORD_DIGITS true gn x = inr d)
         (concat rows_all) ds /\
       map category ds
         = map (fun x => py_str (py_int (row_cls x)))
             (concat (map (@rev row) batches))) /\
  (forall e s1,
     try_block CONF_DIGITS COORD_DIGITS rt self img thr size (entry self id)
       = (inl e, s1) ->
     match survivors rt self img thr size with
     | inl e' => e = e'
     | inr (arr, t, batches) =>
         match normalization_gain (shape arr) with
         | inl e' => e = e'
         | inr _ => exists det, In det batches /\ visited rt t arr det = inl e
         end
     end) /\
  forall f,
    events (generate_detections_one_image CONF_DIGITS COORD_DIGITS
              FAILURE_INFER rt self img id thr size)
    = events (generate_detections_one_image CONF_DIGITS COORD_DIGITS
                FAILURE_INFER (relabel f rt) self img id thr size) /\
    match
      outcome (generate_detections_one_image CONF_DIGITS COORD_DIGITS
                 FAILURE_INFER rt self img id thr size),
      outcome (generate_detections_one_image CONF_DIGITS COORD_DIGITS
                 FAILURE_INFER (relabel f rt) self img id thr size)
    with
    | inl e, inl e' => e = e'
    | inr r, inr r' => same_but_categories r r'
    | _, _ => False
    end.
Proof.
  intros Hnative.
  assert (Hfail : forall e s1,
    try_block CONF_DIGITS COORD_DIGITS rt self img thr size (entry self id)
      = (inl e, s1) ->
    match survivors rt self img thr size with
    | inl e' => e = e'
    | inr (arr, t, batches) =>
        match normalization_gain (shape arr) with
        | inl e' => e = e'
        | inr _ => exists det, In det batches /\ visited rt t arr det = inl e
        end
    end).
  { intros e s1 Hrun.
    destruct (try_block_exact _ _ _ _ _ _ _ _ _ _ Hrun)
      as (ds & _ & _ & _ & Hcase).
    destruct (survivors rt self img thr size) as [e' | [[arr t] batches]];
      [destruct Hcase as [[= ->] _]; reflexivity |].
    destruct (normalization_gain (shape arr)) as [e' | gn];
      [destruct Hcase as [[= ->] _]; reflexivity |].
    destruct Hcase as (done & bad & rest & rows_done & pre & -> & _
                       & [[Hbad _] | (x & post & _ & Hx)] & _).
    - exists bad. split; [apply in_or_app; right; left; reflexivity | exact Hbad].
    - apply format_pure_inl in Hx as (Hx & _). congruence. }
  split; [| split; [exact Hfail |]].
  - intros arr t batches gn rows_all Hsurv Hgn Hvis.
    destruct (try_block CONF_DIGITS COORD_DIGITS rt self img thr size
                (entry self id)) as [res s1] eqn:Hrun.
    destruct res as [e | []].
    { exfalso. specialize (Hfail e s1 eq_refl).
      rewrite Hsurv, Hgn in Hfail. destruct Hfail as (det & Hin & Hdet).
      clear - Hvis Hin Hdet.
      induction Hvis as [| det0 rows batches rows_all Hv _ IH];
        [destruct Hin |].
      destruct Hin as [<- | Hin]; [congruence | exact (IH Hin)]. }
    destruct (try_block_exact _ _ _ _ _ _ _ _ _ _ Hrun)
      as (ds & _ & Hd & Hm & Hcase).
    rewrite Hsurv, Hgn in Hcase. destruct Hcase as (rows' & Hvis' & HF).
    rewrite (visited_functional _ _ _ _ _ _ Hvis' Hvis) in HF.
    cbn in Hd, Hm. rewrite Hnative in HF.
    exists ds. rewrite (generate_run _ _ _ _ _ _ _ _ _ _ _ Hrun).
    cbn [outcome fst]. rewrite Hd, Hm.
    split; [reflexivity |]. split; [exact HF |].
    destruct (formatted_rows _ _ _ _ _ _ HF) as (Hcat & _).
    rewrite Hcat.
    destruct (visited_all_columns _ _ _ _ _ Hvis) as [Hcls _].
    transitivity (map (fun c => py_str (py_int c))
                    (map row_cls (concat rows_all)));
      [rewrite map_map; reflexivity |].
    rewrite Hcls, map_map. reflexivity.
  - intros f.
    destruct (try_block_alike CONF_DIGITS COORD_DIGITS rt self f Hnative
                img thr size (entry self id))
      as (res & s1 & s1' & Hrun & Hrun' & Ha).
    rewrite (generate_run _ _ _ _ _ _ _ _ _ _ _ Hrun).
    rewrite (generate_run _ _ _ _ _ _ _ _ _ _ _ Hrun').
    destruct Ha as (Hw & _ & Hm & Ht & Hd).
    assert (Hrec : forall fl,
               same_but_categories
                 (record id fl (max_conf s1) (detections s1))
                 (record id fl (max_conf s1') (detections s1'))).
    { intros fl. rewrite Hm.
      destruct (record_lookup id fl (max_conf s1') (detections s1))
        as (L1 & L2 & L3 & L4).
      destruct (record_lookup id fl (max_conf s1') (detections s1'))
        as (L1' & L2' & L3' & L4').
      unfold same_but_categories.
      rewrite L1, L1', L2, L2', L3, L3'. repeat split.
      exists (detections s1), (detections s1'). auto. }
    destruct res as [e | u]; cbn zeta.
    + cbn [relabel traceback_print_exc].
      destruct (traceback_print_exc rt (PyExc e)) as [e' | []];
        unfold events, outcome; cbn [fst snd]; rewrite Ht; auto.
    + unfold events, outcome; cbn [fst snd]. rewrite Ht. auto.
Qed.

End Independence.

Lemma C10_native_classes_never_fail_witness :
  exists ds,
    outcome (generate_detections_one_image 3 4 "Failure inference"
               (bench_runtime cpython_print_exc)
               (bench_detector [stranger] true) 1%N "a.jpg" (1 # 10)%Q None)
      = inr (record "a.jpg" None (running_max (map conf ds) 0) ds) /\
    map category ds = ["5"].
Proof.
  assert (Hsurv : survivors (bench_runtime cpython_print_exc)
                    (bench_detector [stranger] true) 1%N (1 # 10)%Q None
                  = inr (bench_array, bench_tensor, [[stranger]]))
    by (vm_compute; reflexivity).
  assert (Hvis : Forall2
                   (fun det rows =>
                      visited (bench_runtime cpython_print_exc) bench_tensor
                        bench_array det = inr rows)
                   [[stranger]]
                   [[with_box stranger (round_box (xyxy stranger))]]).
  { constructor; [vm_compute; reflexivity | constructor]. }
  destruct (proj1 (C10_native_classes_never_fail 3 4 "Failure inference"
                     (bench_runtime cpython_print_exc)
                     (bench_detector [stranger] true)
                     1%N "a.jpg" (1 # 10)%Q None eq_refl)
              bench_array bench_tensor [[stranger]] (200, 100, 200, 100)%Q _
              Hsurv eq_refl Hvis)
    as (ds & Hout & _ & Hcat).
  exists ds. split; [exact Hout | exact Hcat].
Defined.

(** * The constructor *)

(** X1.  The device of the constructor (lines 45-53): Metal when
    [torch.backends.mps.is_available()] says so, even where CUDA is
    available as well, and whatever [is_built()] would return, which is
    never called; CUDA when it is available and Metal is not, or its
    backend is missing; and the CPU is kept when [force_cpu] is set. *)
Theorem X1_device_precedence env force_cpu :
  (select_device env force_cpu = mps <->
   force_cpu = false /\ exists b, backends_mps env = Mps_backend b true) /\
  (select_device env force_cpu = cuda0 <->
   force_cpu = false /\ cuda_is_available env = true /\
   forall b, backends_mps env <> Mps_backend b true) /\
  (force_cpu = true -> select_device env force_cpu = cpu).
Proof.
  unfold select_device.
  destruct force_cpu; cbn.
  { split; [| split]; try reflexivity;
      split; intros H; try discriminate; destruct H; discriminate. }
  destruct (backends_mps env) as [| b [|]] eqn:Hm;
    destruct (cuda_is_available env) eqn:Hc; cbn;
    (split; [| split]; [| | discriminate]);
    split; intros H; try discriminate; try reflexivity;
    try (destruct H as (_ & [b' Hb]); discriminate);
    try (destruct H as (_ & Hb & _); discriminate);
    try (destruct H as (_ & _ & Hb); exfalso; eapply Hb; reflexivity);
    try (split; [reflexivity | eexists; reflexivity]);
    try (split; [reflexivity | split; [reflexivity | intros; discriminate]]).
Qed.

(** X2.  A detector that the constructor returns runs on the device that
    its model was loaded for, has the warning flag unset and the class
    policy it was given; the model was sent to a device, and this was
    printed, exactly when the device is not the CPU, hence never with
    [force_cpu]. *)
Theorem X2_constructed_detector env path force_cpu native d :
  fst (__init__ env path force_cpu native) = inr d ->
  device d = select_device env force_cpu /\
  _load_model env path (device d) = inr (model d) /\
  printed_image_size_warning d = false /\
  use_model_native_classes d = native /\
  snd (__init__ env path force_cpu native)
    = match device d with
      | cpu => [Init_call "torch.load"]
      | _ => [Init_call "torch.load"; Print_sending_model_to_gpu;
              Init_call "model.to"]
      end /\
  (force_cpu = true ->
   snd (__init__ env path force_cpu native) = [Init_call "torch.load"]).
Proof.
  unfold __init__.
  assert (Hcpu : force_cpu = true -> select_device env force_cpu = cpu)
    by (intros ->; reflexivity).
  destruct (_load_model env path (select_device env force_cpu))
    as [e | m] eqn:Hload; cbn; [discriminate |].
  destruct (select_device env force_cpu) eqn:Hdev.
  - cbn. intros [= <-]. cbn. rewrite Hload. auto 10.
  - destruct (model_to env cuda0); cbn; [discriminate |].
    intros [= <-]. cbn. rewrite Hload.
    repeat (split; [reflexivity |]).
    intros Hf. specialize (Hcpu Hf). discriminate.
  - destruct (model_to env mps); cbn; [discriminate |].
    intros [= <-]. cbn. rewrite Hload.
    repeat (split; [reflexivity |]).
    intros Hf. specialize (Hcpu Hf). discriminate.
Qed.

Lemma X2_constructed_detector_witness :
  device (init mps (fun _ => inr [animal]) true) = mps /\
  snd (__init__ (bench_torch true (Mps_backend false true)) "md_v5a.pt"
         false true)
    = [Init_call "torch.load"; Print_sending_model_to_gpu;
       Init_call "model.to"].
Proof.
  assert (H : fst (__init__ (bench_torch true (Mps_backend false true))
                     "md_v5a.pt" false true)
              = inr (init mps (fun _ => inr [animal]) true))
    by reflexivity.
  destruct (X2_constructed_detector _ _ _ _ _ H) as (Hd & _ & _ & _ & He & _).
  split; [exact Hd | exact He].
Defined.

(** X12.  How the constructor fails.  It returns a detector exactly when
    [torch.load] returns a checkpoint for the chosen device that has the key
    ['model'], [.float().fuse().eval()] returns, and, off the CPU,
    [model.to] returns.  A checkpoint without the key gives [KeyError], and
    an exception of [torch.load] leaves the constructor as it is; in both
    cases nothing is printed and nothing is sent to a device. *)
Theorem X12_constructor_failure env path force_cpu native :
  ((exists d, fst (__init__ env path force_cpu native) = inr d) <->
   exists checkpoint stored m,
     torch_load env path (select_device env force_cpu) = inr checkpoint /\
     checkpoint !! "model" = Some stored /\
     float_fuse_eval env stored = inr m /\
     (select_device env force_cpu = cpu \/
      model_to env (select_device env force_cpu) = inr tt)) /\
  (forall checkpoint,
     torch_load env path (select_device env force_cpu) = inr checkpoint ->
     checkpoint !! "model" = None ->
     __init__ env path force_cpu native
       = (inl (KeyError_key "model"), [Init_call "torch.load"])) /\
  (forall e,
     torch_load env path (select_device env force_cpu) = inl e ->
     __init__ env path force_cpu native
       = (inl (Raised e), [Init_call "torch.load"])).
Proof.
  unfold __init__, _load_model.
  destruct (torch_load env path (select_device env force_cpu))
    as [e | checkpoint] eqn:Hload.
  { split; [| split].
    - split; [intros [d Hd]; discriminate |].
      intros (c & st & m & Hc & _); discriminate.
    - intros c Hc; discriminate.
    - intros e' [= <-]. reflexivity. }
  destruct (checkpoint !! "model") as [stored |] eqn:Hkey.
  2:{ split; [| split].
      - split; [intros [d Hd]; discriminate |].
        intros (c & st & m & [= <-] & Hst & _). congruence.
      - reflexivity.
      - discriminate. }
  split; [| split; [intros c [= <-] Hc; congruence | discriminate]].
  destruct (float_fuse_eval env stored) as [e | m] eqn:Hm.
  { split; [intros [d Hd]; discriminate |].
    intros (c & st & m & [= <-] & Hst & Hm' & _). congruence. }
  destruct (select_device env force_cpu) eqn:Hdev.
  - split; [| intros _; eexists; reflexivity].
    intros _. exists checkpoint, stored, m. auto.
  - destruct (model_to env cuda0) as [e | []] eqn:Hto; cbn.
    + split; [intros [d Hd]; discriminate |].
      intros (_ & _ & _ & _ & _ & _ & [H | H]); discriminate.
    + split; [| intros _; eexists; reflexivity].
      intros _. exists checkpoint, stored, m. auto.
  - destruct (model_to env mps) as [e | []] eqn:Hto; cbn.
    + split; [intros [d Hd]; discriminate |].
      intros (_ & _ & _ & _ & _ & _ & [H | H]); discriminate.
    + split; [| intros _; eexists; reflexivity].
      intros _. exists checkpoint, stored, m. auto.
Qed.

(** * The call, further *)

Section Further.

Variables CONF_DIGITS COORD_DIGITS : Z.
Variable FAILURE_INFER : string.
Variable rt : runtime.

Let run := generate_detections_one_image CONF_DIGITS COORD_DIGITS
             FAILURE_INFER rt.
Let body := try_block CONF_DIGITS COORD_DIGITS rt.

(** The flag after a call and the warnings of the call, for an image
    that converts and a size that line 104 accepts. *)
Lemma warning_state self img id thr size arr :
  np_asarray rt img = inr arr ->
  match size with Some sz => valid_image_size sz | None => True end ->
  printed_image_size_warning (detector_after (run self img id thr size))
    = fst (warning_step (printed_image_size_warning self) size) /\
  size_warnings (events (run self img id thr size))
    = snd (warning_step (printed_image_size_warning self) size).
Proof.
  intros Harr Hsize. unfold run.
  destruct (body self img thr size (entry self id)) as [res s1] eqn:Hrun.
  unfold body in Hrun.
  destruct (flag_and_warnings CONF_DIGITS COORD_DIGITS FAILURE_INFER rt self
              _ _ _ _ _ _ Hrun) as [-> ->].
  destruct (try_block_run _ _ _ _ _ _ _ _ _ _ Hrun)
    as (_ & _ & evs & Htr & Hflag).
  cbn in Htr. rewrite Htr. cbn. fold (size_warnings evs).
  rewrite Harr in Hflag.
  destruct size as [sz |]; [| exact Hflag].
  apply check_image_size_valid in Hsize. rewrite Hsize in Hflag.
  exact Hflag.
Qed.

Lemma run_calls_warnings calls : forall self,
  Forall (accepted rt) calls ->
  size_warnings
    (fst (run_calls CONF_DIGITS COORD_DIGITS FAILURE_INFER rt self calls))
    = expected_warnings (negb (printed_image_size_warning self))
        (map arg_size calls).
Proof.
  induction calls as [| c rest IH]; intros self Hall; [reflexivity |].
  inversion Hall as [| c' rest' [[arr Harr] Hsize] Hrest]; subst.
  cbn [run_calls fst map]. rewrite size_warnings_app.
  destruct (warning_state self (arg_image c) (arg_id c) (arg_threshold c)
              (arg_size c) arr Harr Hsize) as [Hflag Hwarn].
  unfold run in Hflag, Hwarn. rewrite Hwarn, (IH _ Hrest), Hflag.
  destruct (arg_size c) as [sz |]; cbn; [| reflexivity].
  destruct (printed_image_size_warning self); reflexivity.
Qed.

End Further.

Lemma constructed_flag env path force_cpu native d :
  fst (__init__ env path force_cpu native) = inr d ->
  printed_image_size_warning d = false.
Proof.
  unfold __init__.
  destruct (_load_model env path (select_device env force_cpu)); cbn;
    [discriminate |].
  destruct (select_device env force_cpu); cbn;
    try (destruct (model_to env _); cbn; [discriminate |]);
    intros [= <-]; reflexivity.
Qed.

(** X3.  On a detector that the constructor returned, over any run of calls
    whose images convert and whose sizes line 104 accepts, the size warning
    is printed by the first call with a non-default size and by every call
    with a non-default size that comes after a call with the default size,
    and by no other: once per run of non-default sizes. *)
Theorem X3_size_warnings_over_calls CONF_DIGITS COORD_DIGITS FAILURE_INFER
    rt env path force_cpu native d calls :
  fst (__init__ env path force_cpu native) = inr d ->
  Forall (accepted rt) calls ->
  size_warnings
    (fst (run_calls CONF_DIGITS COORD_DIGITS FAILURE_INFER rt d calls))
    = expected_warnings true (map arg_size calls).
Proof.
  intros Hd Hall.
  rewrite (run_calls_warnings _ _ _ _ _ _ Hall),
    (constructed_flag _ _ _ _ _ Hd).
  reflexivity.
Qed.

Lemma X3_size_warnings_over_calls_witness :
  size_warnings
    (fst (run_calls 3 4 "Failure inference" (bench_runtime cpython_print_exc)
            (init cpu (fun _ => inr [animal]) false) bench_calls))
    = [Print_size_warning (SizeInt 640); Print_size_warning (SizeInt 640)].
Proof.
  assert (Hd : fst (__init__ (bench_torch false Mps_missing) "md_v5a.pt"
                      false false)
               = inr (init cpu (fun _ => inr [animal]) false))
    by reflexivity.
  assert (Hall : Forall (accepted (bench_runtime cpython_print_exc))
                   bench_calls).
  { repeat (constructor;
            [split; [eexists; reflexivity |];
             cbn; auto; first [left; eexists; reflexivity
                              | right; do 2 eexists; reflexivity] |]).
    constructor. }
  exact (X3_size_warnings_over_calls 3 4 "Failure inference"
           (bench_runtime cpython_print_exc) _ _ _ _ _ _ Hd Hall).
Defined.

(** * What the flag and the threshold do not touch *)

Section Locals.

Variables CONF_DIGITS COORD_DIGITS : Z.
Variable FAILURE_INFER : string.
Variable rt : runtime.
Variable self : PTDetector.

Lemma same_locals_push d s s' :
  same_locals s s' -> same_locals (push d s) (push d s').
Proof.
  intros (Hr & Hd & Hm). unfold same_locals, push; cbn.
  rewrite Hr, Hd, Hm. auto.
Qed.

Lemma rows_locals gn rows : forall s s',
  same_locals s s' ->
  fst (for_each rows (format_row CONF_DIGITS COORD_DIGITS self gn) s)
    = fst (for_each rows (format_row CONF_DIGITS COORD_DIGITS self gn) s') /\
  same_locals
    (snd (for_each rows (format_row CONF_DIGITS COORD_DIGITS self gn) s))
    (snd (for_each rows (format_row CONF_DIGITS COORD_DIGITS self gn) s')).
Proof.
  induction rows as [| r rows IH]; intros s s' Hs; [cbn; auto |].
  cbn [for_each]. unfold bind. rewrite !format_row_run.
  destruct (format_pure _ _ _ gn r) as [e | d]; [cbn; auto |].
  apply IH, same_locals_push, Hs.
Qed.

Lemma batch_locals t arr gn det s s' :
  same_locals s s' ->
  fst (format_batch CONF_DIGITS COORD_DIGITS rt self t arr gn det s)
    = fst (format_batch CONF_DIGITS COORD_DIGITS rt self t arr gn det s') /\
  same_locals
    (snd (format_batch CONF_DIGITS COORD_DIGITS rt self t arr gn det s))
    (snd (format_batch CONF_DIGITS COORD_DIGITS rt self t arr gn det s')).
Proof.
  intros Hs. unfold format_batch.
  destruct (0 <? length det)%nat; [| cbn; auto].
  unfold call, bind, log, lift.
  destruct (scale_coords rt _ _ _) as [e | scaled]; [cbn; auto |].
  destruct (assign_boxes det (map round_box scaled)) as [e | det'];
    [cbn; auto |].
  apply rows_locals. exact Hs.
Qed.

Lemma batches_locals t arr gn batches : forall s s',
  same_locals s s' ->
  fst (for_each batches
         (format_batch CONF_DIGITS COORD_DIGITS rt self t arr gn) s)
    = fst (for_each batches
             (format_batch CONF_DIGITS COORD_DIGITS rt self t arr gn) s') /\
  same_locals
    (snd (for_each batches
            (format_batch CONF_DIGITS COORD_DIGITS rt self t arr gn) s))
    (snd (for_each batches
            (format_batch CONF_DIGITS COORD_DIGITS rt self t arr gn) s')).
Proof.
  induction batches as [| det batches IH]; intros s s' Hs; [cbn; auto |].
  cbn [for_each]. unfold bind.
  destruct (batch_locals t arr gn det s s' Hs) as [Hres Hloc].
  destruct (format_batch _ _ _ _ t arr gn det s) as [[e | []] s1];
    destruct (format_batch _ _ _ _ t arr gn det s') as [[e' | []] s1'];
    cbn in Hres, Hloc; try discriminate; [cbn; auto |].
  apply IH, Hloc.
Qed.

(** The body of [try] reads the flag for the warning only. *)
Lemma try_block_locals img thr size s s' :
  same_locals s s' ->
  fst (try_block CONF_DIGITS COORD_DIGITS rt self img thr size s)
    = fst (try_block CONF_DIGITS COORD_DIGITS rt self img thr size s') /\
  same_locals
    (snd (try_block CONF_DIGITS COORD_DIGITS rt self img thr size s))
    (snd (try_block CONF_DIGITS COORD_DIGITS rt self img thr size s')).
Proof.
  intros (Hr & Hd & Hm). unfold try_block, bind.
  destruct (preprocess_and_infer rt self img thr size s)
    as [res1 s1] eqn:H1.
  destruct (preprocess_and_infer rt self img thr size s')
    as [res2 s2] eqn:H2.
  apply preprocess_and_infer_run in H1 as (Hr1 & Hd1 & Hm1 & Hres1 & _).
  apply preprocess_and_infer_run in H2 as (Hr2 & Hd2 & Hm2 & Hres2 & _).
  assert (Hs : same_locals s1 s2).
  { unfold same_locals. rewrite Hr1, Hd1, Hm1, Hr2, Hd2, Hm2. auto. }
  assert (Hres : res1 = res2).
  { destruct (survivors rt self img thr size) as [e | [[arr t] batches]];
      [congruence |].
    destruct (normalization_gain (shape arr)); congruence. }
  subst res2.
  destruct res1 as [e | [[[arr t] batches] gn]]; [cbn; auto |].
  apply batches_locals, Hs.
Qed.

Lemma outcome_ignores_flag b img id thr size :
  outcome (generate_detections_one_image CONF_DIGITS COORD_DIGITS
             FAILURE_INFER rt (with_flag self b) img id thr size)
  = outcome (generate_detections_one_image CONF_DIGITS COORD_DIGITS
               FAILURE_INFER rt self img id thr size).
Proof.
  destruct (try_block CONF_DIGITS COORD_DIGITS rt self img thr size
              (entry self id)) as [res s1] eqn:H1.
  destruct (try_block CONF_DIGITS COORD_DIGITS rt (with_flag self b)
              img thr size (entry (with_flag self b) id))
    as [res' s1'] eqn:H2.
  rewrite (generate_run _ _ FAILURE_INFER _ _ _ _ _ _ _ _ H1),
    (generate_run _ _ FAILURE_INFER _ _ _ _ _ _ _ _ H2).
  change (try_block CONF_DIGITS COORD_DIGITS rt (with_flag self b))
    with (try_block CONF_DIGITS COORD_DIGITS rt self) in H2.
  assert (Hs : same_locals (entry self id) (entry (with_flag self b) id))
    by (unfold same_locals; cbn; auto).
  destruct (try_block_locals img thr size _ _ Hs) as [Hres (_ & Hd & Hm)].
  rewrite H1, H2 in Hres, Hd, Hm. cbn in Hres, Hd, Hm. subst res'.
  destruct res as [e | []]; cbn.
  - destruct (traceback_print_exc rt (PyExc e)); cbn;
      [reflexivity | rewrite Hd, Hm; reflexivity].
  - rewrite Hd, Hm. reflexivity.
Qed.

(** X4.  What a call returns does not depend on the calls that were made
    before on the same detector: the flag that they leave decides about
    the size warning only. *)
Theorem X4_earlier_calls_do_not_change_outcomes
    img0 id0 thr0 size0 img id thr size :
  outcome (generate_detections_one_image CONF_DIGITS COORD_DIGITS
             FAILURE_INFER rt
             (detector_after
                (generate_detections_one_image CONF_DIGITS COORD_DIGITS
                   FAILURE_INFER rt self img0 id0 thr0 size0))
             img id thr size)
  = outcome (generate_detections_one_image CONF_DIGITS COORD_DIGITS
               FAILURE_INFER rt self img id thr size).
Proof.
  unfold generate_detections_one_image at 2.
  destruct (generate_detections_one_image_body _ _ _ _ _ img0 id0 thr0 size0
              (entry self id0)) as [r s].
  exact (outcome_ignores_flag (warned s) img id thr size).
Qed.

(** The threshold is handed to suppression and read nowhere else. *)
Lemma try_block_threshold img thr1 thr2 size s :
  match staged rt self img size with
  | inr (_, _, p) =>
      non_max_suppression rt p thr1 = non_max_suppression rt p thr2
  | inl _ => True
  end ->
  try_block CONF_DIGITS COORD_DIGITS rt self img thr1 size s
  = try_block CONF_DIGITS COORD_DIGITS rt self img thr2 size s.
Proof.
  unfold try_block, preprocess_and_infer, staged, choose_target_size, call,
    bind, log, lift, ret, get_warned, set_warned, target_of.
  destruct (np_asarray rt img) as [e | arr]; [reflexivity |].
  destruct size as [sz |].
  - destruct (check_image_size sz) as [e | []]; [reflexivity |].
    destruct (warned s); cbn;
      destruct (letterbox rt arr sz STRIDE true) as [e | lb];
      try reflexivity;
      destruct (to_batch rt lb (device self)) as [e | t]; try reflexivity;
      destruct (model self t) as [e | p]; try reflexivity;
      intros ->; reflexivity.
  - cbn.
    destruct (letterbox rt arr (SizeInt IMAGE_SIZE) STRIDE true)
      as [e | lb]; [reflexivity |].
    destruct (to_batch rt lb (device self)) as [e | t]; [reflexivity |].
    destruct (model self t) as [e | p]; [reflexivity |].
    intros ->; reflexivity.
Qed.

(** X5.  The threshold acts through non-maximum suppression only: two
    thresholds for which suppression returns the same rows of the
    candidates of the image give the same call, in what is returned, in
    the detector afterwards and in what is called and printed.  The
    confidences are not compared with the threshold again after they are
    cut to their digits. *)
Theorem X5_threshold_acts_through_suppression img id thr1 thr2 size :
  match staged rt self img size with
  | inr (_, _, p) =>
      non_max_suppression rt p thr1 = non_max_suppression rt p thr2
  | inl _ => True
  end ->
  generate_detections_one_image CONF_DIGITS COORD_DIGITS FAILURE_INFER
    rt self img id thr1 size
  = generate_detections_one_image CONF_DIGITS COORD_DIGITS FAILURE_INFER
      rt self img id thr2 size.
Proof.
  intros H.
  unfold generate_detections_one_image, generate_detections_one_image_body,
    bind, try_except.
  rewrite (try_block_threshold img thr1 thr2 size (entry self id) H).
  reflexivity.
Qed.

End Locals.

Lemma X5_threshold_acts_through_suppression_witness :
  generate_detections_one_image 3 4 "Failure inference"
    (bench_runtime cpython_print_exc) (bench_detector [animal; stranger] false)
    1%N "a.jpg" (1 # 2)%Q None
  = generate_detections_one_image 3 4 "Failure inference"
      (bench_runtime cpython_print_exc)
      (bench_detector [animal; stranger] false)
      1%N "a.jpg" (3 # 5)%Q None.
Proof.
  assert (H : match staged (bench_runtime cpython_print_exc)
                      (bench_detector [animal; stranger] false) 1%N None with
              | inr (_, _, p) =>
                  non_max_suppression (bench_runtime cpython_print_exc) p
                    (1 # 2)%Q
                  = non_max_suppression (bench_runtime cpython_print_exc) p
                      (3 # 5)%Q
              | inl _ => True
              end)
    by (vm_compute; reflexivity).
  exact (X5_threshold_acts_through_suppression 3 4 "Failure inference"
           (bench_runtime cpython_print_exc)
           (bench_detector [animal; stranger] false)
           1%N "a.jpg" (1 # 2)%Q (3 # 5)%Q None H).
Defined.

(** * The calls of a call *)

Lemma calls_of_app tr1 tr2 : calls_of (tr1 ++ tr2) = calls_of tr1 ++ calls_of tr2.
Proof. apply omap_app. Qed.

Lemma calls_of_rescaling n :
  calls_of (repeat (Call "scale_coords") n) = repeat "scale_coords" n.
Proof. induction n as [| n IH]; [reflexivity |]. cbn. f_equal. exact IH. Qed.

Section Calls.

Variables CONF_DIGITS COORD_DIGITS : Z.
Variable FAILURE_INFER : string.
Variable rt : runtime.
Variable self : PTDetector.

Let run := generate_detections_one_image CONF_DIGITS COORD_DIGITS
             FAILURE_INFER rt self.
Let body := try_block CONF_DIGITS COORD_DIGITS rt self.

(** The stages are entered in the order of the source, and none after
    one that raised. *)
Lemma preprocess_calls img thr size s res s' :
  preprocess_and_infer rt self img thr size s = (res, s') ->
  exists evs,
    trace s' = trace s ++ evs /\
    calls_of evs = take (stages_entered rt self img size) stage_names.
Proof.
  unfold preprocess_and_infer, stages_entered, choose_target_size, call,
    bind, log, lift, ret, get_warned, set_warned, target_of.
  destruct size as [sz |]; repeat stage;
    intros H; inversion H; subst res s'; cbn;
    rewrite <- ?app_assoc; cbn [app];
    eexists; (split; [reflexivity |]); reflexivity.
Qed.

Lemma stages_entered_all img thr size x :
  survivors rt self img thr size = inr x ->
  stages_entered rt self img size = 5%nat.
Proof.
  unfold survivors, staged, stages_entered.
  destruct (np_asarray rt img) as [e | arr]; [discriminate |].
  destruct (match size with
            | Some sz => check_image_size sz
            | None => inr tt
            end) as [e | u]; [discriminate |].
  destruct (letterbox rt arr (target_of size) STRIDE true) as [e | lb];
    [discriminate |].
  destruct (to_batch rt lb (device self)) as [e | t]; [discriminate |].
  destruct (model self t) as [e | p]; [discriminate | reflexivity].
Qed.

Lemma batch_calls t arr gn det s res s' :
  format_batch CONF_DIGITS COORD_DIGITS rt self t arr gn det s = (res, s') ->
  trace s' = trace s ++ (if has_rows det then [Call "scale_coords"] else []).
Proof.
  unfold format_batch, has_rows.
  destruct (0 <? length det)%nat.
  2:{ cbn. intros [= <- <-]. rewrite app_nil_r. reflexivity. }
  unfold call, bind, log, lift.
  destruct (scale_coords rt _ _ _) as [e | scaled];
    [intros [= <- <-]; reflexivity |].
  destruct (assign_boxes det (map round_box scaled)) as [e | det'];
    [intros [= <- <-]; reflexivity |].
  intros H. apply rows_run in H as (done & rest & ds & _ & _ & -> & _).
  destruct (pushes_fields ds
              {| warned := warned s; result := result s;
                 detections := detections s; max_conf := max_conf s;
                 trace := trace s ++ [Call "scale_coords"] |})
    as (_ & _ & _ & _ & ->).
  reflexivity.
Qed.

Lemma batches_calls t arr gn batches : forall s res s',
  for_each batches
    (format_batch CONF_DIGITS COORD_DIGITS rt self t arr gn) s = (res, s') ->
  exists n,
    trace s' = trace s ++ repeat (Call "scale_coords") n /\
    (n <= length (List.filter has_rows batches))%nat /\
    (forall u, res = inr u -> n = length (List.filter has_rows batches)).
Proof.
  induction batches as [| det batches IH]; intros s res s' H.
  { cbn in H. inversion H; subst. exists 0%nat. cbn.
    rewrite app_nil_r. auto. }
  cbn [for_each] in H.
  apply bind_run in H as [(e & Hb & ->) | (a & s1 & Hb & Hrest)];
    apply batch_calls in Hb.
  - exists (if has_rows det then 1%nat else 0%nat).
    cbn [List.filter]. destruct (has_rows det); cbn [length repeat];
      (split; [exact Hb |]); (split; [lia | discriminate]).
  - apply IH in Hrest as (n & Htr & Hle & Heq).
    exists ((if has_rows det then 1 else 0) + n)%nat.
    rewrite Htr, Hb, <- app_assoc, repeat_app.
    cbn [List.filter]. destruct (has_rows det); cbn [length repeat app];
      (split; [reflexivity |]); (split; [lia |]);
      intros u Hu; rewrite (Heq u Hu); reflexivity.
Qed.

Lemma try_block_calls img thr size s res s' :
  body img thr size s = (res, s') ->
  exists n,
    calls_of (trace s')
      = calls_of (trace s)
          ++ take (stages_entered rt self img size) stage_names
          ++ repeat "scale_coords" n /\
    match survivors rt self img thr size with
    | inr (_, _, batches) =>
        (n <= length (List.filter has_rows batches))%nat /\
        (forall u, res = inr u ->
           n = length (List.filter has_rows batches))
    | inl e => n = 0%nat /\ res = inl e
    end.
Proof.
  unfold body, try_block. intros H.
  apply bind_run in H as [(e & Hp & ->) | (a & s1 & Hp & Hrest)].
  - destruct (preprocess_calls _ _ _ _ _ _ Hp) as (evs & Htr & Hk).
    apply preprocess_and_infer_run in Hp as (_ & _ & _ & Hres & _).
    exists 0%nat. rewrite Htr, calls_of_app, Hk, app_nil_r.
    split; [reflexivity |].
    destruct (survivors rt self img thr size) as [e' | [[arr t] batches]].
    + split; [reflexivity | congruence].
    + split; [lia | discriminate].
  - destruct (preprocess_calls _ _ _ _ _ _ Hp) as (evs & Htr & Hk).
    apply preprocess_and_infer_run in Hp as (_ & _ & _ & Hres & _).
    destruct (survivors rt self img thr size) as [e' | [[arr t] batches]];
      [discriminate |].
    destruct (normalization_gain (shape arr)) as [e' | gn]; [discriminate |].
    injection Hres as ->. cbn in Hrest.
    apply batches_calls in Hrest as (n & Htr' & Hle & Heq).
    exists n.
    rewrite Htr', Htr, !calls_of_app, Hk, calls_of_rescaling, <- app_assoc.
    split; [reflexivity |]. split; [exact Hle | exact Heq].
Qed.

(** X8.  The collaborators that a call enters.  First the stages
    [np.asarray], [letterbox], the transfer to the device, the model and
    non-maximum suppression, each once, in this order, up to the first
    that raises: [np.asarray] alone when the conversion raises or the
    size is refused, two when [letterbox] raises, three when the transfer
    does, four when the model does, and all five otherwise.  Then
    [scale_coords], at most once for each batch that has rows, exactly
    once for each when the call ends without failure, and not at all
    unless suppression returned.  And [traceback.print_exc] at the end
    exactly when no record without failure marker is returned. *)
Theorem X8_call_discipline img id thr size :
  exists n tail,
    calls_of (events (run img id thr size))
      = take (stages_entered rt self img size) stage_names
          ++ repeat "scale_coords" n ++ tail /\
    match survivors rt self img thr size with
    | inr (_, _, batches) =>
        (n <= length (List.filter has_rows batches))%nat /\
        (tail = [] -> n = length (List.filter has_rows batches))
    | inl _ => n = 0%nat /\ tail = ["traceback.print_exc"]
    end /\
    (tail = [] \/ tail = ["traceback.print_exc"]) /\
    (tail = [] <->
     exists r, outcome (run img id thr size) = inr r /\ succeeded r).
Proof.
  unfold run.
  destruct (body img thr size (entry self id)) as [res s1] eqn:Hrun.
  destruct (try_block_calls _ _ _ _ _ _ Hrun) as (n & Htr & Hs).
  unfold body in Hrun.
  rewrite (generate_run _ _ FAILURE_INFER _ _ _ _ _ _ _ _ Hrun).
  cbn in Htr.
  destruct res as [e | []].
  - exists n, ["traceback.print_exc"].
    assert (Hev : calls_of
                    (trace s1 ++ [Print_failure id e;
                                  Call "traceback.print_exc"])
                  = take (stages_entered rt self img size) stage_names
                      ++ repeat "scale_coords" n
                      ++ ["traceback.print_exc"]).
    { rewrite calls_of_app, Htr, <- app_assoc. reflexivity. }
    destruct (traceback_print_exc rt (PyExc e)) as [e' | []];
      cbn [events outcome fst snd];
      (split; [exact Hev |]);
      (split; [destruct (survivors rt self img thr size)
                 as [e0 | [[arr t] batches]];
               [split; [apply Hs | reflexivity]
               | split; [apply Hs | discriminate]] |]);
      (split; [right; reflexivity |]);
      (split; [discriminate |]).
    + intros (r & Hr & _). discriminate.
    + intros (r & [= <-] & Hr). unfold succeeded in Hr.
      rewrite (proj1 (proj2 (record_lookup _ _ _ _))) in Hr. discriminate.
  - exists n, []. cbn [events outcome fst snd].
    rewrite app_nil_r.
    split; [exact Htr |].
    split.
    { destruct (survivors rt self img thr size) as [e0 | [[arr t] batches]];
        [destruct Hs as [_ Hs]; discriminate |].
      destruct Hs as [Hle Heq]. split; [exact Hle |].
      intros _. exact (Heq tt eq_refl). }
    split; [left; reflexivity |].
    split; [| reflexivity].
    intros _. eexists. split; [reflexivity |].
    exact (proj1 (proj2 (record_lookup id None (max_conf s1)
                           (detections s1)))).
Qed.

Lemma batches_without_rows t arr gn batches s :
  concat batches = [] ->
  for_each batches
    (format_batch CONF_DIGITS COORD_DIGITS rt self t arr gn) s = (inr tt, s).
Proof.
  induction batches as [| det batches IH]; [reflexivity |].
  cbn [concat]. intros H. apply app_eq_nil in H as [-> H].
  cbn [for_each]. unfold bind. cbn. exact (IH H).
Qed.

(** X7.  An image on which suppression returns no row, in no batch or in
    empty batches only: the call returns the record without failure marker,
    with no detection and [0.0] as greatest confidence, and [scale_coords]
    is not entered. *)
Theorem X7_no_rows img id thr size arr t batches gn :
  survivors rt self img thr size = inr (arr, t, batches) ->
  concat batches = [] ->
  normalization_gain (shape arr) = inr gn ->
  outcome (run img id thr size) = inr (record id None 0 []) /\
  calls_of (events (run img id thr size)) = stage_names.
Proof.
  intros Hsurv Hnil Hgn. unfold run.
  destruct (body img thr size (entry self id)) as [res s1] eqn:Hrun.
  pose proof Hrun as Hbody. unfold body, try_block in Hbody.
  apply bind_run in Hbody as [(e & Hp & ->) | (a & s0 & Hp & Hrest)];
    pose proof (preprocess_calls _ _ _ _ _ _ Hp) as (evs & Htr & Hk);
    apply preprocess_and_infer_run in Hp as (_ & Hd & Hm & Hres & _);
    rewrite Hsurv, Hgn in Hres; [discriminate |].
  injection Hres as ->. cbn in Hrest.
  rewrite (batches_without_rows _ _ _ _ _ Hnil) in Hrest.
  injection Hrest as <- <-.
  unfold body in Hrun.
  rewrite (generate_run _ _ FAILURE_INFER _ _ _ _ _ _ _ _ Hrun).
  cbn [outcome events fst snd]. rewrite Hd, Hm, Htr. cbn [entry trace app
    detections max_conf].
  split; [reflexivity |].
  rewrite Hk, (stages_entered_all _ _ _ _ Hsurv). reflexivity.
Qed.

(** X6.  In every record that is returned, [max_detection_conf] is not
    negative, is not below the confidence of any detection of the record,
    and is [0.0] or the confidence of one of them: the greatest confidence
    is taken from [0.0] on, whatever the confidences are, and also in a
    record with the failure marker. *)
Theorem X6_max_conf_floor img id thr size r :
  outcome (run img id thr size) = inr r ->
  exists m ds,
    r !! "max_detection_conf" = Some (VFloat m) /\
    r !! "detections" = Some (VList ds) /\
    (0 <= m)%Q /\
    Forall (fun d => (conf d <= m)%Q) ds /\
    (m = 0%Q \/ Exists (fun d => conf d = m) ds).
Proof.
  intros Hout.
  apply returned_record in Hout as (res & s1 & failure & _ & -> & _).
  destruct (record_lookup id failure
              (running_max (map conf (detections s1)) 0) (detections s1))
    as (_ & _ & Hm & Hd).
  destruct (running_max_bounds (map conf (detections s1)) 0)
    as (H0 & HF & HE).
  eexists; eexists. split; [exact Hm |]. split; [exact Hd |].
  split; [exact H0 |].
  split.
  { apply List.Forall_forall. intros d Hin.
    rewrite List.Forall_forall in HF. apply HF, in_map, Hin. }
  destruct HE as [HE | HE]; [left; exact HE | right].
  apply List.Exists_exists in HE as (c & Hin & Hc).
  apply in_map_iff in Hin as (d & <- & Hin).
  apply List.Exists_exists. exists d. auto.
Qed.

Lemma remapped_categories gn rows ds :
  Forall2 (fun r d =>
    format_pure CONF_DIGITS COORD_DIGITS false gn r = inr d) rows ds ->
  Forall (fun d => In (category d) ["1"; "2"; "3"]) ds.
Proof.
  induction 1 as [| x d rows ds Hx _ IH]; constructor; [| exact IH].
  apply format_pure_inr in Hx as (Hc & _ & _ & Hrec).
  rewrite Hc. specialize (Hrec eq_refl).
  unfold category_of. unfold recognized in Hrec.
  destruct Hrec as [<- | [<- | [<- | []]]]; cbn; auto.
Qed.

(** X9.  Without the passthrough of the classes of the model, every
    detection of every record that is returned, with or without the
    failure marker, has one of the categories ["1"], ["2"] and ["3"]. *)
Theorem X9_categories_without_passthrough img id thr size r ds :
  use_model_native_classes self = false ->
  outcome (run img id thr size) = inr r ->
  r !! "detections" = Some (VList ds) ->
  Forall (fun d => In (category d) ["1"; "2"; "3"]) ds.
Proof.
  intros Hnative Hout Hds.
  apply returned_record in Hout as (res & s1 & failure & Hrun & -> & _).
  rewrite (proj2 (proj2 (proj2 (record_lookup _ _ _ _)))) in Hds.
  injection Hds as <-.
  destruct (try_block_run _ _ _ _ _ _ _ _ _ _ Hrun)
    as (_ & (ds & Hd & _ & Hcase) & _).
  cbn in Hd. rewrite Hd.
  destruct (survivors rt self img thr size) as [e | [[arr t] batches]].
  { destruct Hcase as [_ ->]. constructor. }
  destruct (normalization_gain (shape arr)) as [e | gn].
  { destruct Hcase as [_ ->]. constructor. }
  destruct Hcase as (rows & HF & _). rewrite Hnative in HF.
  exact (remapped_categories gn rows ds HF).
Qed.

End Calls.

Lemma X6_max_conf_floor_witness :
  exists m ds,
    record "a.jpg" None 0.900 [animal_detection false]
      !! "max_detection_conf" = Some (VFloat m) /\
    record "a.jpg" None 0.900 [animal_detection false]
      !! "detections" = Some (VList ds) /\
    (0 <= m)%Q /\
    Forall (fun d => (conf d <= m)%Q) ds /\
    (m = 0%Q \/ Exists (fun d => conf d = m) ds).
Proof.
  assert (Hout : outcome (generate_detections_one_image 3 4 "Failure inference"
                   (bench_runtime cpython_print_exc)
                   (bench_detector [animal] false)
                   1%N "a.jpg" (1 # 2)%Q None)
                 = inr (record "a.jpg" None 0.900 [animal_detection false]))
    by (vm_compute; reflexivity).
  exact (X6_max_conf_floor 3 4 "Failure inference"
           (bench_runtime cpython_print_exc) (bench_detector [animal] false)
           1%N "a.jpg" (1 # 2)%Q None _ Hout).
Defined.

Lemma X7_no_rows_witness :
  outcome (generate_detections_one_image 3 4 "Failure inference"
             (bench_runtime cpython_print_exc) (bench_detector [animal] false)
             1%N "a.jpg" (19 # 20)%Q None)
    = inr (record "a.jpg" None 0 []) /\
  calls_of
    (events (generate_detections_one_image 3 4 "Failure inference"
               (bench_runtime cpython_print_exc)
               (bench_detector [animal] false)
               1%N "a.jpg" (19 # 20)%Q None))
    = stage_names.
Proof.
  assert (Hsurv : survivors (bench_runtime cpython_print_exc)
                    (bench_detector [animal] false) 1%N (19 # 20)%Q None
                  = inr (bench_array, bench_tensor, [[]]))
    by (vm_compute; reflexivity).
  exact (X7_no_rows 3 4 "Failure inference"
           (bench_runtime cpython_print_exc) (bench_detector [animal] false)
           1%N "a.jpg" (19 # 20)%Q None bench_array bench_tensor [[]]
           (200, 100, 200, 100)%Q Hsurv eq_refl eq_refl).
Defined.

Lemma X9_categories_without_passthrough_witness :
  Forall (fun d => In (category d) ["1"; "2"; "3"])
    [animal_detection false; person_detection false].
Proof.
  assert (Hout : outcome (generate_detections_one_image 3 4 "Failure inference"
                   (bench_runtime cpython_print_exc)
                   (bench_detector [person; animal] false)
                   1%N "a.jpg" (1 # 2)%Q None)
                 = inr (record "a.jpg" None 0.900
                          [animal_detection false; person_detection false]))
    by (vm_compute; reflexivity).
  exact (X9_categories_without_passthrough 3 4 "Failure inference"
           (bench_runtime cpython_print_exc)
           (bench_detector [person; animal] false)
           1%N "a.jpg" (1 # 2)%Q None _ _ eq_refl Hout
           (proj2 (proj2 (proj2 (record_lookup _ _ _ _))))).
Defined.

(** * The imports *)

(** X10.  The imports of lines 19-30 succeed exactly when both modules can
    be imported and define the three functions and one of the two names of
    the rescaling function; [scale_coords] is then the function of that
    name when it exists, also where [scale_boxes] exists as well, and
    [scale_boxes] only when it does not. *)
Theorem X10_import_binding env f :
  import_yolov5 env = inr f <->
  has_module env "utils.general" = true /\
  has_module env "utils.augmentations" = true /\
  has_name env "utils.general" "non_max_suppression" = true /\
  has_name env "utils.general" "xyxy2xywh" = true /\
  has_name env "utils.augmentations" "letterbox" = true /\
  (has_name env "utils.general" "scale_coords" = true /\ f = "scale_coords" \/
   has_name env "utils.general" "scale_coords" = false /\
   has_name env "utils.general" "scale_boxes" = true /\ f = "scale_boxes").
Proof.
  unfold import_yolov5, from_import. cbn.
  destruct (has_module env "utils.general"); cbn;
    [| split; [discriminate | intros (H & _); discriminate]].
  destruct (has_name env "utils.general" "non_max_suppression"); cbn;
    [| split; [discriminate | intros (_ & _ & H & _); discriminate]].
  destruct (has_name env "utils.general" "xyxy2xywh"); cbn;
    [| split; [discriminate | intros (_ & _ & _ & H & _); discriminate]].
  destruct (has_module env "utils.augmentations"); cbn;
    [| split; [discriminate | intros (_ & H & _); discriminate]].
  destruct (has_name env "utils.augmentations" "letterbox"); cbn;
    [| split; [discriminate | intros (_ & _ & _ & _ & H & _); discriminate]].
  destruct (has_name env "utils.general" "scale_coords"); cbn.
  { split.
    - intros [= <-]. auto 10.
    - intros (_ & _ & _ & _ & _ & [[_ ->] | [H _]]);
        [reflexivity | discriminate]. }
  destruct (has_name env "utils.general" "scale_boxes"); cbn.
  - split.
    + intros [= <-]. auto 10.
    + intros (_ & _ & _ & _ & _ & [[H _] | (_ & _ & ->)]);
        [discriminate | reflexivity].
  - split; [discriminate |].
    intros (_ & _ & _ & _ & _ & [[H _] | (_ & H & _)]); discriminate.
Qed.

